(** * twitter-cleanser: retweet/link filtering and dead-link evaluation

    A shallow embedding of [twitter-cleanser.py].  Tweets and candidate
    entries are Python dictionaries obtained from [json.loads]; they are
    embedded as finite maps from strings to JSON values.  Python exceptions
    are embedded as the [Raise] branch of a result type. *)

From Stdlib Require Import ZArith String Ascii List Permutation Lia.
From stdpp Require Import base option list gmap strings fin_maps.

Local Open Scope string_scope.
Local Open Scope Z_scope.
Local Set Warnings "-register-all".

(** ** Values *)

(** What [json.loads] builds: [None], [bool], [int], [str], [list], [dict].
    Numbers are the integers (tweet ids, counters). *)
Inductive json : Type :=
  | JNull
  | JBool (b : bool)
  | JNum (n : Z)
  | JStr (s : string)
  | JArr (l : list json)
  | JObj (m : gmap string json).

(** Python truth value of an object, as tested by [if x:]. *)
Definition truthy (v : json) : bool :=
  match v with
  | JNull => false
  | JBool b => b
  | JNum n => negb (n =? 0)
  | JStr s => negb (String.eqb s EmptyString)
  | JArr l => match l with [] => false | _ :: _ => true end
  | JObj m => negb (bool_decide (m = ∅))
  end.

(** ** Exceptions *)

Inductive exn : Type :=
  | KeyError (k : string)
  | TypeError
  | AttributeError
  | RequestException
  | ValueError
  | NameError
  | UnicodeEncodeError.

Inductive result (A : Type) : Type :=
  | Ok (a : A)
  | Raise (e : exn).
Arguments Ok {A} a.
Arguments Raise {A} e.

Definition bind {A B : Type} (r : result A) (k : A -> result B) : result B :=
  match r with
  | Ok a => k a
  | Raise e => Raise e
  end.

Notation "'let!' x ':=' r 'in' k" := (bind r (fun x => k))
  (at level 10, x name, r at level 100, k at level 200).

(** [d[k]] on a dictionary. *)
Definition getitem (d : gmap string json) (k : string) : result json :=
  match d !! k with
  | Some v => Ok v
  | None => Raise (KeyError k)
  end.

(** [v[k]] with a string subscript on an arbitrary value: only a dictionary
    accepts it. *)
Definition subscript (v : json) (k : string) : result json :=
  match v with
  | JObj d => getitem d k
  | _ => Raise TypeError
  end.

(** [for x in v]: the items a [for] loop over [v] visits.  A string is
    visited character by character, a dictionary key by key. *)
Definition iter (v : json) : result (list json) :=
  match v with
  | JArr l => Ok l
  | JStr s =>
      Ok (map (fun c => JStr (String c EmptyString)) (list_ascii_of_string s))
  | JObj d => Ok (map (fun kv => JStr (fst kv)) (map_to_list d))
  | _ => Raise TypeError
  end.

(** [s.startswith(p)] on strings. *)
Fixpoint startswith (p s : string) : bool :=
  match p with
  | EmptyString => true
  | String a p' =>
      match s with
      | EmptyString => false
      | String b s' => if Ascii.eqb a b then startswith p' s' else false
      end
  end.

(** ** Classification of tweets *)

(** [is_retweet(tweet_json)]. *)
Definition is_retweet (tweet_json : gmap string json) : result bool :=
  let! r := getitem tweet_json "retweeted" in
  if truthy r then Ok true
  else
    let! t := getitem tweet_json "text" in
    match t with
    | JStr s => if startswith "RT" s then Ok true else Ok false
    | _ => Raise AttributeError
    end.

(** [contains_url(tweet_json)]. *)
Definition contains_url (tweet_json : gmap string json) : result bool :=
  let! e := getitem tweet_json "entities" in
  let! u := subscript e "urls" in
  if truthy u then Ok true else Ok false.

(** [filter_retweets(tweets)]: the list comprehension evaluates
    [is_retweet] on the tweets from left to right. *)
Fixpoint filter_retweets (tweets : list (gmap string json))
  : result (list (gmap string json)) :=
  match tweets with
  | [] => Ok []
  | tweet :: rest =>
      let! r := is_retweet tweet in
      let! kept := filter_retweets rest in
      Ok (if r then kept else tweet :: kept)
  end.

(** A comprehension [[f(x) for x in xs]] whose body may raise. *)
Fixpoint comprehension {A B : Type} (f : A -> result B) (xs : list A)
  : result (list B) :=
  match xs with
  | [] => Ok []
  | x :: rest =>
      let! y := f x in
      let! ys := comprehension f rest in
      Ok (y :: ys)
  end.

Definition kept_keys : list string := ["id"; "created_at"; "text"].

(** The body of the loop of [filter_tweets_with_urls] for a tweet that
    contains urls: the entry appended to [tweets_with_urls]. *)
Definition make_entry (tweet : gmap string json) : result (gmap string json) :=
  let entry : gmap string json :=
    filter (fun kv : string * json => fst kv ∈ kept_keys) tweet in
  let! e := getitem tweet "entities" in
  let! u := subscript e "urls" in
  let! items := iter u in
  let! urls := comprehension (fun url => subscript url "expanded_url") items in
  let entry := <["urls" := JArr urls]> entry in
  let entry := <["bad" := JBool false]> entry in
  Ok entry.

(** [filter_tweets_with_urls(tweets)]. *)
Fixpoint filter_tweets_with_urls (tweets : list (gmap string json))
  : result (list (gmap string json)) :=
  match tweets with
  | [] => Ok []
  | tweet :: rest =>
      let! c := contains_url tweet in
      if c then
        let! entry := make_entry tweet in
        let! tweets_with_urls := filter_tweets_with_urls rest in
        Ok (entry :: tweets_with_urls)
      else filter_tweets_with_urls rest
  end.

(** The argument of the scan in [__main__]:
    [filter_tweets_with_urls(filter_retweets(tweets))]. *)
Definition pipeline (tweets : list (gmap string json))
  : result (list (gmap string json)) :=
  let! kept := filter_retweets tweets in
  filter_tweets_with_urls kept.

(** ** Probing urls *)

(** How [requests.head(url, timeout=timeout)] ends: with a response and its
    status code, with [requests.exceptions.Timeout], with
    [requests.ConnectionError], or with another exception of [requests]
    ([InvalidSchema] for a url such as [ftp://files.example/a],
    [MissingSchema], [InvalidURL], ...), which no [except] clause of
    [check_urls_in_tweet] catches. *)
Inductive outcome : Type :=
  | Response (status_code : Z)
  | Timeout
  | ConnectionError
  | OtherError.

Definition bad_status : list Z :=
  [400; 401; 402; 404; 406; 410; 413; 500; 502; 504].

(** [x in t] on a tuple of integers. *)
Definition contains (t : list Z) (x : Z) : bool := existsb (Z.eqb x) t.

(** The [try] statement of the loop body: does this outcome execute
    [tweet['bad'] = True]? *)
Definition marks_bad (o : outcome) : bool :=
  match o with
  | Response status_code => contains bad_status status_code
  | Timeout => true
  | ConnectionError => true
  | OtherError => false
  end.

(** Does this outcome leave the [try] statement by an exception that is
    not caught? *)
Definition escapes (o : outcome) : bool :=
  match o with
  | OtherError => true
  | _ => false
  end.

(** An outcome after which the loop goes on to the next url: a response
    whose status is not in [bad_status]. *)
Definition alive (o : outcome) : bool := negb (marks_bad o) && negb (escapes o).

Section Probe.

(** The network: what a HEAD request to a url yields during the run. *)
Variable requests_head : string -> outcome.

(** The [for url in tweet['urls']] loop.  The second component lists the
    urls requested so far, oldest first.  An item that is not a string is
    not a url [requests] accepts, and an exception that is not caught ends
    the loop and the function. *)
Fixpoint check_loop (urls : list json) (tweet : gmap string json)
    (probed : list string) : result (gmap string json * list string) :=
  match urls with
  | [] => Ok (tweet, probed)
  | url :: rest =>
      match url with
      | JStr u =>
          if escapes (requests_head u) then Raise RequestException
          else
            let tweet :=
              if marks_bad (requests_head u)
              then <["bad" := JBool true]> tweet else tweet in
            let probed := (probed ++ [u])%list in
            let! b := getitem tweet "bad" in
            if truthy b then Ok (tweet, probed)
            else check_loop rest tweet probed
      | _ => Raise RequestException
      end
  end.

(** [check_urls_in_tweet(tweet, timeout)], with the urls it requested. *)
Definition check_urls_in_tweet_trace (tweet : gmap string json)
  : result (gmap string json * list string) :=
  let! us := getitem tweet "urls" in
  let! urls := iter us in
  check_loop urls tweet [].

(** [check_urls_in_tweet(tweet, timeout)]: the returned tweet. *)
Definition check_urls_in_tweet (tweet : gmap string json)
  : result (gmap string json) :=
  let! r := check_urls_in_tweet_trace tweet in
  Ok (fst r).

End Probe.

(** ** The scan of [__main__] *)

(** [[tweet for tweet in result if tweet['bad']]]: the consumer of the
    results.  A result that is an exception of the worker is raised again
    when the iteration reaches it. *)
Fixpoint bad_tweets (results : list (result (gmap string json)))
  : result (list (gmap string json)) :=
  match results with
  | [] => Ok []
  | r :: rest =>
      let! tweet := r in
      let! b := getitem tweet "bad" in
      let! selected := bad_tweets rest in
      Ok (if truthy b then tweet :: selected else selected)
  end.

(** The pool behind [pool.imap_unordered(f, tasks)]: tasks not yet handed
    out, tasks a worker process holds, and the results already put on the
    result queue, oldest first.  Every task is pickled into its worker, so
    a worker changes its own copy of the tweet only. *)
Record pool : Type := Pool {
  pending : list (gmap string json);
  running : list (gmap string json);
  results : list (result (gmap string json))
}.

Section Scan.

Variable f : gmap string json -> result (gmap string json).
Variable processes : nat.

(** A step of the pool: an idle worker takes the next task, or some
    worker (any of them) finishes its task and queues the result. *)
Inductive pool_step : pool -> pool -> Prop :=
  | step_take task todo busy done :
      (length busy < processes)%nat ->
      pool_step (Pool (task :: todo) busy done)
                (Pool todo (busy ++ [task])%list done)
  | step_finish todo busy1 task busy2 done :
      pool_step (Pool todo (busy1 ++ task :: busy2)%list done)
                (Pool todo (busy1 ++ busy2)%list (done ++ [f task])%list).

(** Runs of the pool. *)
Inductive pool_run : pool -> pool -> Prop :=
  | run_stop p : pool_run p p
  | run_step p q r : pool_step p q -> pool_run q r -> pool_run p r.

(** Everything the pool will have produced when it is done. *)
Definition outstanding (p : pool) : list (result (gmap string json)) :=
  (results p ++ map f (running p) ++ map f (pending p))%list.

(** [list(pool.imap_unordered(f, tasks))] may be [out]: some run from the
    initial pool ends with every task done and [out] on the queue. *)
Definition imap_unordered (tasks : list (gmap string json))
    (out : list (result (gmap string json))) : Prop :=
  pool_run (Pool tasks [] []) (Pool [] [] out).

End Scan.

(** ** Reading the dump *)

(** What the program prints on the error paths of the loader. *)
Inductive message : Type :=
  | CannotFindDumpFile (filename : string)
  | CannotParseJSONFile.

Section Loader.

(** [json.loads]: [None] stands for [json.JSONDecodeError]. *)
Variable loads : string -> option json.

(** The [for line in f] loop inside the [try] statement: the tweets
    appended so far, and what the handler printed. *)
Fixpoint load_lines (lines : list string) (tweets : list json)
  : list json * list message :=
  match lines with
  | [] => (tweets, [])
  | line :: rest =>
      match loads line with
      | Some tweet => load_lines rest (tweets ++ [tweet])%list
      | None => (tweets, [CannotParseJSONFile])
      end
  end.

(** [load_tweets_from_file(filename)]; [files] gives the lines of the
    files that exist. *)
Definition load_tweets_from_file (files : string -> option (list string))
    (filename : string) : list json * list message :=
  match files filename with
  | Some lines => load_lines lines []
  | None => ([], [CannotFindDumpFile filename])
  end.

End Loader.

(** ** A reader for the dump's JSON

    [json_loads] reads the JSON texts whose numbers are integers and whose
    [\u] escapes name characters of the basic plane outside the surrogates,
    the way [json.loads] does: surrounding white space is skipped, a
    repeated key keeps its last value, and anything after the value is an
    error. *)

Definition dquote : ascii := ascii_of_nat 34.

Definition is_ws (c : ascii) : bool :=
  match nat_of_ascii c with
  | 32%nat | 9%nat | 10%nat | 13%nat => true
  | _ => false
  end.

Fixpoint skip_ws (s : list ascii) : list ascii :=
  match s with
  | c :: s' => if is_ws c then skip_ws s' else s
  | [] => []
  end.

Definition digit_of (c : ascii) : option Z :=
  let n := Z.of_nat (nat_of_ascii c) in
  if (48 <=? n) && (n <=? 57) then Some (n - 48) else None.

Definition hex_of (c : ascii) : option Z :=
  let n := Z.of_nat (nat_of_ascii c) in
  if (48 <=? n) && (n <=? 57) then Some (n - 48)
  else if (97 <=? n) && (n <=? 102) then Some (n - 87)
  else if (65 <=? n) && (n <=? 70) then Some (n - 55)
  else None.

Definition byte_of (n : Z) : ascii := ascii_of_nat (Z.to_nat n).

(** The UTF-8 bytes of a character of the basic plane. *)
Definition utf8 (cp : Z) : list ascii :=
  if cp <? 128 then [byte_of cp]
  else if cp <? 2048 then
    [byte_of (192 + cp / 64); byte_of (128 + cp mod 64)]
  else
    [byte_of (224 + cp / 4096); byte_of (128 + (cp / 64) mod 64);
     byte_of (128 + cp mod 64)].

(** The digits at the head of [s], as a number continuing [acc]. *)
Fixpoint read_digits (s : list ascii) (acc : Z) : Z * list ascii :=
  match s with
  | c :: s' =>
      match digit_of c with
      | Some d => read_digits s' (10 * acc + d)
      | None => (acc, s)
      end
  | [] => (acc, [])
  end.

(** An integer without sign: a single [0], or digits not starting with
    [0]; a fraction or an exponent after it is not read. *)
Definition read_nat (s : list ascii) : option (Z * list ascii) :=
  match s with
  | c :: s' =>
      match digit_of c with
      | Some 0 =>
          match s' with
          | c' :: _ =>
              if is_Some_dec (digit_of c') then None
              else if (Ascii.eqb c' "." || Ascii.eqb c' "e" || Ascii.eqb c' "E")%bool
              then None else Some (0, s')
          | [] => Some (0, [])
          end
      | Some d =>
          let '(n, rest) := read_digits s' d in
          match rest with
          | c' :: _ =>
              if (Ascii.eqb c' "." || Ascii.eqb c' "e" || Ascii.eqb c' "E")%bool
              then None else Some (n, rest)
          | [] => Some (n, [])
          end
      | None => None
      end
  | [] => None
  end.

(** The characters of a string literal after its opening quote. *)
Fixpoint read_string (s : list ascii) (acc : list ascii)
  : option (string * list ascii) :=
  match s with
  | [] => None
  | c :: s' =>
      if Ascii.eqb c dquote then Some (string_of_list_ascii acc, s')
      else if Ascii.eqb c "\" then
        match s' with
        | e :: s'' =>
            let simple (x : Z) := read_string s'' (acc ++ [byte_of x])%list in
            if Ascii.eqb e dquote then simple 34
            else if Ascii.eqb e "\" then simple 92
            else if Ascii.eqb e "/" then simple 47
            else if Ascii.eqb e "b" then simple 8
            else if Ascii.eqb e "f" then simple 12
            else if Ascii.eqb e "n" then simple 10
            else if Ascii.eqb e "r" then simple 13
            else if Ascii.eqb e "t" then simple 9
            else if Ascii.eqb e "u" then
              match s'' with
              | h1 :: h2 :: h3 :: h4 :: s3 =>
                  match hex_of h1, hex_of h2, hex_of h3, hex_of h4 with
                  | Some a, Some b, Some c, Some d =>
                      let cp := ((a * 16 + b) * 16 + c) * 16 + d in
                      if (55296 <=? cp) && (cp <=? 57343) then None
                      else read_string s3 (acc ++ utf8 cp)%list
                  | _, _, _, _ => None
                  end
              | _ => None
              end
            else None
        | [] => None
        end
      else if (nat_of_ascii c <? 32)%nat then None
      else read_string s' (acc ++ [c])%list
  end.

(** Does [s] start with the characters of [w]?  Then the rest. *)
Fixpoint read_word (w : string) (s : list ascii) : option (list ascii) :=
  match w with
  | EmptyString => Some s
  | String a w' =>
      match s with
      | c :: s' => if Ascii.eqb a c then read_word w' s' else None
      | [] => None
      end
  end.

(** The values.  A call spends one unit of [fuel]; [read_value] reads one
    value, [read_items] the items of an array after its bracket and
    [read_members] the members of an object after its brace. *)
Fixpoint read_value (fuel : nat) (s : list ascii) : option (json * list ascii) :=
  match fuel with
  | O => None
  | S fuel =>
      match s with
      | [] => None
      | c :: s' =>
          if Ascii.eqb c dquote then
            match read_string s' [] with
            | Some (str, rest) => Some (JStr str, rest)
            | None => None
            end
          else if Ascii.eqb c "[" then
            match skip_ws s' with
            | c' :: s'' =>
                if Ascii.eqb c' "]" then Some (JArr [], s'')
                else read_items fuel (c' :: s'') []
            | [] => None
            end
          else if Ascii.eqb c "{" then
            match skip_ws s' with
            | c' :: s'' =>
                if Ascii.eqb c' "}" then Some (JObj ∅, s'')
                else read_members fuel (c' :: s'') ∅
            | [] => None
            end
          else if Ascii.eqb c "-" then
            match read_nat s' with
            | Some (n, rest) => Some (JNum (- n), rest)
            | None => None
            end
          else if Ascii.eqb c "n" then
            match read_word "ull" s' with
            | Some rest => Some (JNull, rest)
            | None => None
            end
          else if Ascii.eqb c "t" then
            match read_word "rue" s' with
            | Some rest => Some (JBool true, rest)
            | None => None
            end
          else if Ascii.eqb c "f" then
            match read_word "alse" s' with
            | Some rest => Some (JBool false, rest)
            | None => None
            end
          else
            match read_nat s with
            | Some (n, rest) => Some (JNum n, rest)
            | None => None
            end
      end
  end
with read_items (fuel : nat) (s : list ascii) (acc : list json)
  : option (json * list ascii) :=
  match fuel with
  | O => None
  | S fuel =>
      match read_value fuel s with
      | Some (v, rest) =>
          match skip_ws rest with
          | c :: rest' =>
              if Ascii.eqb c "," then
                read_items fuel (skip_ws rest') (acc ++ [v])%list
              else if Ascii.eqb c "]" then Some (JArr (acc ++ [v])%list, rest')
              else None
          | [] => None
          end
      | None => None
      end
  end
with read_members (fuel : nat) (s : list ascii) (acc : gmap string json)
  : option (json * list ascii) :=
  match fuel with
  | O => None
  | S fuel =>
      match s with
      | q :: s' =>
          if Ascii.eqb q dquote then
            match read_string s' [] with
            | Some (key, rest) =>
                match skip_ws rest with
                | c :: rest' =>
                    if Ascii.eqb c ":" then
                      match read_value fuel (skip_ws rest') with
                      | Some (v, rest2) =>
                          match skip_ws rest2 with
                          | c2 :: rest3 =>
                              if Ascii.eqb c2 "," then
                                read_members fuel (skip_ws rest3)
                                  (<[key := v]> acc)
                              else if Ascii.eqb c2 "}" then
                                Some (JObj (<[key := v]> acc), rest3)
                              else None
                          | [] => None
                          end
                      | None => None
                      end
                    else None
                | [] => None
                end
            | None => None
            end
          else None
      | [] => None
      end
  end.

(** [json.loads(s)] on the texts of the fragment: the value, or [None] for
    [json.JSONDecodeError].  A text with a fraction, an exponent, [NaN],
    [Infinity] or a [\u] escape of a surrogate lies outside the fragment:
    [json.loads] reads it, this reader answers [None].  The reader is
    applied below to texts without these only. *)
Definition json_loads (s : string) : option json :=
  let text := list_ascii_of_string s in
  match read_value (2 * length text + 2) (skip_ws text) with
  | Some (v, rest) =>
      match skip_ws rest with
      | [] => Some v
      | _ :: _ => None
      end
  | None => None
  end.

(** A text with every apostrophe turned into a double quote, to write down
    JSON texts. *)
Definition dq (s : string) : string :=
  string_of_list_ascii
    (map (fun c => if Ascii.eqb c "'" then dquote else c)
       (list_ascii_of_string s)).

(** ** Shapes of tweets and entries *)

(** The [expanded_url] fields of the entries of [entities.urls] of a tweet
    of the feed, in their order; [None] when the tweet has not that shape. *)
Fixpoint expanded_of (entities_urls : list json) : option (list json) :=
  match entities_urls with
  | [] => Some []
  | JObj d :: rest =>
      match d !! "expanded_url", expanded_of rest with
      | Some x, Some xs => Some (x :: xs)
      | _, _ => None
      end
  | _ :: _ => None
  end.

Definition expanded_urls (tweet : gmap string json) : option (list json) :=
  match tweet !! "entities" with
  | Some (JObj entities) =>
      match entities !! "urls" with
      | Some (JArr l) => expanded_of l
      | _ => None
      end
  | _ => None
  end.

(** A tweet whose [entities.urls] is not empty. *)
Definition has_urls (tweet : gmap string json) : bool :=
  match expanded_urls tweet with
  | Some (_ :: _) => true
  | _ => false
  end.

(** A tweet on which [is_retweet] returns [False]. *)
Definition not_retweet (tweet : gmap string json) : bool :=
  match is_retweet tweet with
  | Ok false => true
  | _ => false
  end.

(** A tweet on which [contains_url] returns [True]. *)
Definition with_url (tweet : gmap string json) : bool :=
  match contains_url tweet with
  | Ok true => true
  | _ => false
  end.

(** A tweet that both filters let through. *)
Definition passes (tweet : gmap string json) : bool :=
  match is_retweet tweet, contains_url tweet with
  | Ok false, Ok true => true
  | _, _ => false
  end.

Definition is_str (v : json) : bool :=
  match v with JStr _ => true | _ => false end.

(** An entry as [filter_tweets_with_urls] makes them from tweets of the
    feed: [urls] is a list of strings and [bad] a boolean. *)
Definition is_candidate (tweet : gmap string json) : bool :=
  match tweet !! "urls", tweet !! "bad" with
  | Some (JArr us), Some (JBool _) => forallb is_str us
  | _, _ => false
  end.

Definition nonempty_urls (tweet : gmap string json) : Prop :=
  exists u us, tweet !! "urls" = Some (JArr (u :: us)).

(** [tweet['bad']] of an entry that has the key, as a truth value. *)
Definition is_bad (tweet : gmap string json) : bool :=
  match tweet !! "bad" with
  | Some b => truthy b
  | None => false
  end.

(** ** Sample data *)

Definition sample_post (id : Z) (text : string) (retweeted : bool)
    (links : list string) : gmap string json :=
  <["id" := JNum id]>
  (<["created_at" := JStr "Mon Sep 24 03:35:21 +0000 2012"]>
  (<["text" := JStr text]>
  (<["retweeted" := JBool retweeted]>
  (<["favorited" := JBool false]>
  (<["entities" :=
       JObj {[ "urls" :=
                 JArr (map (fun l => JObj {[ "expanded_url" := JStr l ]})
                         links) ]}]> ∅))))).

Definition sample_entry (id : Z) (links : list string) (bad : bool)
  : gmap string json :=
  <["id" := JNum id]>
  (<["created_at" := JStr "Mon Sep 24 03:35:21 +0000 2012"]>
  (<["text" := JStr "check this http://x"]>
  (<["urls" := JArr (map JStr links)]>
  (<["bad" := JBool bad]> ∅)))).

(** A network where one host is gone, one answers too late, one forbids
    access, one url has a scheme [requests] knows no adapter for, and
    every other one answers 200. *)
Definition sample_net (url : string) : outcome :=
  if String.eqb url "ftp://files.example/a" then OtherError
  else if String.eqb url "http://dead.example" then Response 404
  else if String.eqb url "http://slow.example" then Timeout
  else if String.eqb url "http://down.example" then ConnectionError
  else if String.eqb url "http://forbidden.example" then Response 403
  else Response 200.

Definition sample_files (filename : string) : option (list string) :=
  if String.eqb filename "tweet_dump.json" then
    Some [dq "{'id':1,'text':'one'}"; "oops"; dq "{'id':3,'text':'three'}"]
  else None.

(** ** Console, files and the API *)

(** [str.lower] as far as the answers [y] and [yes] are concerned: the
    letters A to Z are sent to a to z.  Outside ASCII, [str.lower] yields
    ASCII text for U+0130 and U+212A only, and then an [i] and a [k]. *)
Definition lower_ascii (c : ascii) : ascii :=
  let n := nat_of_ascii c in
  if ((65 <=? n) && (n <=? 90))%nat then ascii_of_nat (n + 32) else c.

Fixpoint lower (s : string) : string :=
  match s with
  | EmptyString => EmptyString
  | String c s' => String (lower_ascii c) (lower s')
  end.

(** [reply.lower() in ('y','yes')]. *)
Definition affirmative (reply : string) : bool :=
  String.eqb (lower reply) "y" || String.eqb (lower reply) "yes".

Definition newline : string := String (ascii_of_nat 10) EmptyString.

(** What the program does to the outside: text written to the terminal, a
    line asked for with [input], a call of [api.destroy_status]. *)
Inductive event : Type :=
  | Printed (text : string)
  | Asked (prompt : string)
  | Destroyed (id : json).

(** [print(text)] and [print(text, end='')]. *)
Definition print (text : string) : event := Printed (text ++ newline)%string.
Definition print_end (text : string) : event := Printed text.

(** Exceptions of the interactive part: those of [exn], [EOFError] of
    [input] at the end of the input, and [tweepy.TweepError]. *)
Inductive failure : Type :=
  | Python (e : exn)
  | EOFError
  | TweepError.

(** The outside: the lines still to be typed at the terminal, what happened
    so far, oldest first, and the files with their lines. *)
Record world : Type := World {
  stdin : list string;
  log : list event;
  files : gmap string (list string)
}.

Definition io (A : Type) : Type := world -> (A + failure) * world.

Definition ret {A : Type} (a : A) : io A := fun w => (inl a, w).

Definition fail {A : Type} (e : failure) : io A := fun w => (inr e, w).

Definition io_bind {A B : Type} (m : io A) (k : A -> io B) : io B :=
  fun w =>
    match m w with
    | (inl a, w') => k a w'
    | (inr e, w') => (inr e, w')
    end.

Notation "'do!' x ':=' m 'in' k" := (io_bind m (fun x => k))
  (at level 10, x name, m at level 100, k at level 200).

Definition emit (e : event) : io unit :=
  fun w => (inl tt, World (stdin w) (log w ++ [e])%list (files w)).

Definition lift {A : Type} (r : result A) : io A :=
  match r with
  | Ok a => ret a
  | Raise e => fail (Python e)
  end.

(** [input(prompt)]. *)
Definition input (prompt : string) : io string :=
  fun w =>
    let shown := (log w ++ [Asked prompt])%list in
    match stdin w with
    | reply :: rest => (inl reply, World rest shown (files w))
    | [] => (inr EOFError, World [] shown (files w))
    end.

(** [request_confirmation(question)]. *)
Definition request_confirmation (question : string) : io bool :=
  do! reply := input (question ++ " [yn]? ")%string in
  if affirmative reply then ret true else ret false.

(** [left + right] where [left] is a string. *)
Definition str_add (left : string) (right : json) : result string :=
  match right with
  | JStr s => Ok (left ++ s)%string
  | _ => Raise TypeError
  end.

Section Api.

(** Does [api.destroy_status(id)] go through?  Otherwise it raises
    [TweepError]. *)
Variable destroy_ok : json -> bool.

Definition destroy_status (id : json) : io unit :=
  do! _ := emit (Destroyed id) in
  if destroy_ok id then ret tt else fail TweepError.

(** [delete_tweet(tweet, interactive)]. *)
Definition delete_tweet (tweet : gmap string json) (interactive : bool)
  : io unit :=
  let deleting :=
    do! _ := emit (print "Deleting tweet") in
    do! id := lift (getitem tweet "id") in
    destroy_status id in
  if interactive then
    do! text := lift (getitem tweet "text") in
    do! question := lift (str_add "Delete '" text) in
    do! yes := request_confirmation question in
    if negb yes then emit (print "Skipping this tweet")
    else deleting
  else deleting.

(** [for tweet in bad_tweets: delete_tweet(tweet)] of [__main__]. *)
Fixpoint delete_all (tweets : list (gmap string json)) : io unit :=
  match tweets with
  | [] => ret tt
  | tweet :: rest =>
      do! _ := delete_tweet tweet true in
      delete_all rest
  end.

End Api.

(** The ids of the calls of [api.destroy_status] in a log. *)
Fixpoint destroyed (l : list event) : list json :=
  match l with
  | [] => []
  | Destroyed id :: l' => id :: destroyed l'
  | _ :: l' => destroyed l'
  end.

(** The prompts in a log. *)
Fixpoint asked (l : list event) : list string :=
  match l with
  | [] => []
  | Asked prompt :: l' => prompt :: asked l'
  | _ :: l' => asked l'
  end.

(** The lines [for line in f] yields for a file opened for reading in text
    mode: the text is cut after every line break, and the line breaks
    [\r\n] and [\r] are read as [\n].  [line] is the part of the current
    line read so far, [after_cr] tells that the last character was [\r]. *)
Fixpoint split_lines (text line : string) (after_cr : bool) : list string :=
  match text with
  | EmptyString => if String.eqb line EmptyString then [] else [line]
  | String c rest =>
      if Ascii.eqb c (ascii_of_nat 10) then
        if after_cr then split_lines rest line false
        else (line ++ newline)%string :: split_lines rest EmptyString false
      else if Ascii.eqb c (ascii_of_nat 13) then
        (line ++ newline)%string :: split_lines rest EmptyString true
      else split_lines rest (line ++ String c EmptyString)%string false
  end.

(** The lines of a file that holds the pieces of text written to it. *)
Definition file_lines (pieces : list string) : list string :=
  split_lines (String.concat EmptyString pieces) EmptyString false.

(** A text without a line break. *)
Fixpoint no_break (text : string) : bool :=
  match text with
  | EmptyString => true
  | String c rest =>
      negb (Ascii.eqb c (ascii_of_nat 10))
      && negb (Ascii.eqb c (ascii_of_nat 13)) && no_break rest
  end.

(** A text that is empty or ends with [\n]. *)
Fixpoint ends_lines (text : string) : bool :=
  match text with
  | EmptyString => true
  | String c EmptyString => Ascii.eqb c (ascii_of_nat 10)
  | String _ rest => ends_lines rest
  end.

(** ** The size of the pool *)

(** [args.processes]: the parser has [default=4] and no [type], so a value
    given on the command line stays the string it is. *)
Inductive argument : Type :=
  | IntArg (n : Z)
  | StrArg (s : string).

Definition args_processes (given : option string) : argument :=
  match given with
  | Some s => StrArg s
  | None => IntArg 4
  end.

(** [mp.Pool(processes=p)] for [p] other than [None]: the test
    [processes < 1] raises [TypeError] on a string, and a number under 1 is
    refused with [ValueError]; otherwise the pool has [p] workers. *)
Definition mp_Pool (processes : argument) : result nat :=
  match processes with
  | StrArg _ => Raise TypeError
  | IntArg n => if n <? 1 then Raise ValueError else Ok (Z.to_nat n)
  end.

(** ** Configuration *)

(** The handle [tweepy.API(auth)]: the credentials it was made from. *)
Record credentials : Type := Credentials {
  consumer_key : json;
  consumer_secret : json;
  access_token : json;
  access_secret : json
}.

(** The calls into [tweepy] that [authenticate] makes; each may raise. *)
Record tweepy : Type := Tweepy {
  OAuthHandler : json -> json -> result unit;
  set_access_token : json -> json -> result unit;
  API : credentials -> result unit
}.

(** [authenticate(config)]; [config] is [None] when [read_config] failed.
    The module imports [tweepy] only, so the name [TweepError] of the
    [except] clause is unbound: an exception of [tweepy.API(auth)] ends in
    [NameError], and the [return None] after the handler is never reached. *)
Definition authenticate (lib : tweepy) (config : json) : result credentials :=
  let! api := subscript config "api" in
  let! account := subscript config "account" in
  let! key := subscript api "key" in
  let! secret := subscript api "secret" in
  let! _ := OAuthHandler lib key secret in
  let! token := subscript account "token" in
  let! token_secret := subscript account "secret" in
  let! _ := set_access_token lib token token_secret in
  let handle := Credentials key secret token token_secret in
  match API lib handle with
  | Ok _ => Ok handle
  | Raise _ => Raise NameError
  end.

(** A [tweepy] whose calls all return. *)
Definition tweepy_ok : tweepy :=
  Tweepy (fun _ _ => Ok tt) (fun _ _ => Ok tt) (fun _ => Ok tt).

Definition is_ascii (s : string) : bool :=
  forallb (fun c => (nat_of_ascii c <? 128)%nat) (list_ascii_of_string s).

(** A [tweepy] whose [OAuthHandler] encodes a consumer key and a consumer
    secret that are strings as ASCII, as version 3 does. *)
Definition tweepy_ascii : tweepy :=
  let encodes (v : json) : bool :=
    match v with JStr s => is_ascii s | _ => true end in
  Tweepy (fun key secret =>
            if encodes key && encodes secret then Ok tt
            else Raise UnicodeEncodeError)
         (fun _ _ => Ok tt) (fun _ => Ok tt).

Section Files.

(** [json.loads] and the text of its [JSONDecodeError]. *)
Variable loads : string -> option json.
Variable decode_error : string -> string.

(** [json.dumps(v, separators=(',', ':'), ensure_ascii=False)]; it writes
    no line break. *)
Variable dumps : json -> string.

(** Appending to a file may fail: then the text of the exception. *)
Variable write_error : string -> option string.

(** The [tweepy] of the run. *)
Variable lib : tweepy.

(** [read_config(filename)]: the parsed file, or [None] after a message. *)
Definition read_config (filename : string) : io json :=
  fun w =>
    match files w !! filename with
    | None =>
        io_bind
          (emit (print ("Cannot find config file ' " ++ filename ++ " '")%string))
          (fun _ => ret JNull) w
    | Some lines =>
        let text := String.concat EmptyString lines in
        match loads text with
        | Some config => (inl config, w)
        | None =>
            io_bind
              (emit (print ("Cannot parse JSON-file:  " ++ decode_error text)%string))
              (fun _ => ret JNull) w
        end
    end.

(** [dump_to_file(tweet, file_name)]: one more line at the end of the
    file, which is created when it does not exist. *)
Definition dump_to_file (tweet : string) (file_name : string) : io unit :=
  fun w =>
    match write_error file_name with
    | None =>
        let old := default [] (files w !! file_name) in
        (inl tt,
         World (stdin w) (log w)
           (<[file_name := (old ++ [(tweet ++ newline)%string])%list]> (files w)))
    | Some text =>
        emit (print ("Failed to dump tweet: " ++ text)%string) w
    end.

(** The body of the loop of [get_tweets] for the [n]-th status. *)
Definition get_tweet (status : gmap string json) (n : nat)
    (dump_file : option string) (echo : bool) : io unit :=
  do! _ :=
    match dump_file with
    | Some file_name =>
        if String.eqb file_name EmptyString then ret tt
        else dump_to_file (dumps (JObj status)) file_name
    | None => ret tt
    end in
  if echo then
    do! created_at := lift (getitem status "created_at") in
    do! head := lift (match created_at with
                      | JStr s => Ok (s ++ ":" ++ newline)%string
                      | _ => Raise TypeError
                      end) in
    do! text := lift (getitem status "text") in
    do! line := lift (str_add head text) in
    emit (print (line ++ newline)%string)
  else if (n mod 10 =? 0)%nat then emit (print_end ".")
  else ret tt.

Fixpoint get_tweets_loop (statuses : list (gmap string json)) (n : nat)
    (dump_file : option string) (echo : bool) : io unit :=
  match statuses with
  | [] => ret tt
  | status :: rest =>
      do! _ := get_tweet status n dump_file echo in
      get_tweets_loop rest (S n) dump_file echo
  end.

(** [get_tweets(api, tweets_to_read, dump_file, echo)]; [statuses] are the
    items the cursor over the user's timeline yields. *)
Definition get_tweets (statuses : list (gmap string json))
    (dump_file : option string) (echo : bool) : io unit :=
  do! _ := (if echo then ret tt else emit (print_end "Reading tweets")) in
  do! _ := get_tweets_loop statuses 0 dump_file echo in
  if echo then ret tt else emit (print "done.").

(** [load_tweets_from_file(filename)] on the files of the world: the loader
    reads the lines of the text of the file.  Its messages are kept apart
    from the log. *)
Definition load_backup (filename : string) (w : world)
  : list json * list message :=
  load_tweets_from_file loads (fun name => file_lines <$> files w !! name)
    filename.

(** The head of [__main__]: the question about an existing backup file,
    the configuration, and the backup of the feed. *)
Definition main_backup (configfile backupfile : string)
    (statuses : list (gmap string json)) : io credentials :=
  do! _ :=
    (fun w =>
       match files w !! backupfile with
       | Some _ =>
           io_bind (request_confirmation "Backup file exists, delete it")
             (fun yes =>
                if yes then
                  fun w' => (inl tt, World (stdin w') (log w')
                                       (delete backupfile (files w')))
                else ret tt) w
       | None => (inl tt, w)
       end) in
  do! config := read_config configfile in
  do! api := lift (authenticate lib config) in
  do! _ := get_tweets statuses (Some backupfile) false in
  ret api.

End Files.

(** The scan and the selection of [__main__] on the loaded tweets: the
    pool is made from [args.processes], then the tweets are filtered and
    the entries handed to the pool; [selected] are the entries selected for
    deletion, for some order in which the workers finish. *)
Definition main_scan (requests_head : string -> outcome) (processes : argument)
    (tweets selected : list (gmap string json)) : Prop :=
  exists workers entries out,
    mp_Pool processes = Ok workers /\
    pipeline tweets = Ok entries /\
    imap_unordered (check_urls_in_tweet requests_head) workers entries out /\
    bad_tweets out = Ok selected.

(** A terminal where [replies] are typed, before anything happened. *)
Definition fresh (replies : list string) : world := World replies [] ∅.

(** The tweets of a list for which the reply typed at its turn is
    affirmative, when every tweet gets its question. *)
Fixpoint confirmed (tweets : list (gmap string json)) (replies : list string)
  : list (gmap string json) :=
  match tweets, replies with
  | tweet :: tweets', reply :: replies' =>
      if affirmative reply then tweet :: confirmed tweets' replies'
      else confirmed tweets' replies'
  | _, _ => []
  end.

(** The values under [id] of the tweets that have one. *)
Definition ids (tweets : list (gmap string json)) : list json :=
  omap (fun tweet : gmap string json => tweet !! "id") tweets.

(** The question [delete_tweet] asks about a tweet with a string [text]. *)
Definition question_of (tweet : gmap string json) : option string :=
  match tweet !! "text" with
  | Some (JStr text) => Some ("Delete '" ++ text ++ " [yn]? ")%string
  | _ => None
  end.

(** What [get_tweets] prints for a status when it echoes: the date, a
    colon, and on the next line the text, followed by an empty line. *)
Definition echo_of (status : gmap string json) : option event :=
  match status !! "created_at", status !! "text" with
  | Some (JStr created_at), Some (JStr text) =>
      Some (print (((created_at ++ ":" ++ newline) ++ text) ++ newline)%string)
  | _, _ => None
  end.

(** Following the specification ([toCandidate]): the candidate of a post
    holds the post's [id], [created_at] and [text], the urls, and [bad] set
    to [false]. *)
Definition toCandidate (post : gmap string json) (urls : list json)
  : gmap string json :=
  let field (k : string) (m : gmap string json) : gmap string json :=
    match post !! k with
    | Some v => <[k := v]> m
    | None => m
    end in
  field "id"
    (field "created_at"
       (field "text" (<["urls" := JArr urls]> (<["bad" := JBool false]> ∅)))).

(** Following the specification ([hasLinks], then [toCandidate]): the
    candidate of a post whose [entities.urls] is not empty, made of the
    [expanded_url] of its entries in their order. *)
Definition candidate_of (post : gmap string json)
  : option (gmap string json) :=
  match expanded_urls post with
  | Some (x :: xs) => Some (toCandidate post (x :: xs))
  | _ => None
  end.

(** What an entry holds, key by key. *)
Definition entry_of (tweet : gmap string json) (xs : list json)
    (entry : gmap string json) : Prop :=
  entry !! "id" = tweet !! "id" /\
  entry !! "created_at" = tweet !! "created_at" /\
  entry !! "text" = tweet !! "text" /\
  entry !! "urls" = Some (JArr xs) /\
  entry !! "bad" = Some (JBool false) /\
  forall k, k ∉ ["id"; "created_at"; "text"; "urls"; "bad"] ->
            entry !! k = None.

(** * Properties *)

(** ** Retweets *)

Lemma startswith_prefix (p s : string) :
  startswith p s = true <-> exists rest, s = p ++ rest.
Proof.
  revert s. induction p as [|a p IH]; intros s; simpl.
  - split; [intros _; exists s; reflexivity | reflexivity].
  - destruct s as [|b s].
    + split; [discriminate | intros [rest H]; discriminate].
    + destruct (Ascii.eqb_spec a b) as [->|Hne].
      * rewrite IH. split; intros [rest H]; exists rest.
        -- now rewrite H.
        -- now injection H.
      * split; [discriminate | intros [rest H]; injection H; congruence].
Qed.

(** C3: on a tweet with a boolean [retweeted] and a string [text],
    [is_retweet] returns [True] exactly when [retweeted] is true or the text
    begins with the two characters [RT], and [False] otherwise. *)
Theorem is_retweet_iff (tweet : gmap string json) (retweeted : bool)
    (text : string) :
  tweet !! "retweeted" = Some (JBool retweeted) ->
  tweet !! "text" = Some (JStr text) ->
  (is_retweet tweet = Ok true <->
     retweeted = true \/ exists rest, text = "RT" ++ rest) /\
  (is_retweet tweet = Ok false <->
     ~ (retweeted = true \/ exists rest, text = "RT" ++ rest)).
Proof.
  intros Hr Ht. unfold is_retweet, getitem. rewrite Hr. cbn [bind truthy].
  destruct retweeted.
  - intuition (try discriminate; try congruence).
  - rewrite Ht. cbn [bind]. rewrite <- (startswith_prefix "RT" text).
    destruct (startswith "RT" text);
      intuition (try discriminate; try congruence).
Qed.

Lemma is_retweet_iff_witness :
  (is_retweet (sample_post 7 " RT @a hi" false []) = Ok true <->
     false = true \/ exists rest, " RT @a hi" = "RT" ++ rest) /\
  (is_retweet (sample_post 7 " RT @a hi" false []) = Ok false <->
     ~ (false = true \/ exists rest, " RT @a hi" = "RT" ++ rest)).
Proof.
  apply (is_retweet_iff (sample_post 7 " RT @a hi" false []) false " RT @a hi");
    reflexivity.
Defined.

(** The prefix is compared as it stands: neither case nor leading blanks
    are normalised. *)
Example is_retweet_samples :
  is_retweet (sample_post 1 "RT @a hi" false []) = Ok true /\
  is_retweet (sample_post 2 "rt @a hi" false []) = Ok false /\
  is_retweet (sample_post 3 " RT @a hi" false []) = Ok false /\
  is_retweet (sample_post 4 "hello" true []) = Ok true /\
  is_retweet (sample_post 5 "hello" false []) = Ok false.
Proof. repeat split; reflexivity. Qed.

(** ** Classification of a probe *)




Lemma escapes_iff (o : outcome) : escapes o = true <-> o = OtherError.
Proof. destruct o; cbn; split; congruence. Qed.

(** An outcome marks the entry, lets the loop go on, or escapes. *)
Lemma outcome_cases (o : outcome) :
  (marks_bad o = true /\ escapes o = false /\ alive o = false) \/
  (marks_bad o = false /\ escapes o = false /\ alive o = true) \/
  (marks_bad o = false /\ escapes o = true /\ alive o = false).
Proof.
  unfold alive. destruct o as [code| | |]; cbn [marks_bad escapes];
    try tauto. destruct (contains bad_status code); cbn; tauto.
Qed.

(** ** Evaluation of an entry *)

Lemma strings_of (l : list json) :
  forallb is_str l = true -> exists us, l = map JStr us.
Proof.
  induction l as [|v l IH]; simpl; intros H.
  - now exists [].
  - apply andb_prop in H as [Hv Hl]. destruct (IH Hl) as [us ->].
    destruct v; try discriminate. now exists (s :: us).
Qed.

Lemma is_candidate_shape (tweet : gmap string json) :
  is_candidate tweet = true ->
  exists us b,
    tweet !! "urls" = Some (JArr (map JStr us)) /\
    tweet !! "bad" = Some (JBool b).
Proof.
  unfold is_candidate. intros H.
  destruct (tweet !! "urls") as [[| | | |l|]|]; try discriminate.
  destruct (tweet !! "bad") as [[|b| | | |]|]; try discriminate.
  destruct (strings_of l H) as [us ->]. now exists us, b.
Qed.

Section ProbeFacts.

Variable requests_head : string -> outcome.

(** The loop writes no key but [bad]. *)
Lemma check_loop_frame (urls : list json) :
  forall tweet probed tweet' probed',
    check_loop requests_head urls tweet probed = Ok (tweet', probed') ->
    forall k, k <> "bad" -> tweet' !! k = tweet !! k.
Proof.
  induction urls as [|url urls IH]; intros tweet probed tweet' probed' H k Hk.
  - cbn in H. now injection H as <- _.
  - cbn [check_loop] in H. destruct url as [| | |u| |]; try discriminate.
    destruct (escapes (requests_head u)); [discriminate |].
    set (t1 := if marks_bad (requests_head u)
               then <["bad" := JBool true]> tweet else tweet) in H.
    assert (Ht1 : t1 !! k = tweet !! k).
    { unfold t1. destruct (marks_bad (requests_head u)); [|reflexivity].
      now apply lookup_insert_ne. }
    destruct (getitem t1 "bad") as [b|e]; cbn [bind] in H; [|discriminate].
    destruct (truthy b).
    + injection H as <- _. exact Ht1.
    + rewrite (IH _ _ _ _ H k Hk). exact Ht1.
Qed.

(** The loop on an entry that is not yet marked: either every url is alive,
    all of them were requested and the entry is returned as it was; or the
    first url that is not alive is dead, and the loop stopped there and
    marked the entry; or the request for the first url that is not alive
    raised an exception that is not caught, and so does the loop. *)
Lemma check_loop_unmarked (us : list string) :
  forall tweet probed,
    tweet !! "bad" = Some (JBool false) ->
    (Forall (fun u => alive (requests_head u) = true) us /\
     check_loop requests_head (map JStr us) tweet probed
       = Ok (tweet, (probed ++ us)%list)) \/
    (exists before u after,
       us = (before ++ u :: after)%list /\
       Forall (fun u => alive (requests_head u) = true) before /\
       marks_bad (requests_head u) = true /\
       check_loop requests_head (map JStr us) tweet probed
         = Ok (<["bad" := JBool true]> tweet, (probed ++ before ++ [u])%list)) \/
    (exists before u after,
       us = (before ++ u :: after)%list /\
       Forall (fun u => alive (requests_head u) = true) before /\
       requests_head u = OtherError /\
       check_loop requests_head (map JStr us) tweet probed
         = Raise RequestException).
Proof.
  induction us as [|u us IH]; intros tweet probed Hbad.
  - left. split; [constructor |]. cbn. now rewrite app_nil_r.
  - cbn [map check_loop].
    destruct (outcome_cases (requests_head u))
      as [(Hm & He & Ha)|[(Hm & He & Ha)|(Hm & He & Ha)]]; rewrite He, ?Hm.
    + right. left. exists [], u, us. repeat split; [constructor | assumption |].
      unfold getitem. rewrite lookup_insert_eq. reflexivity.
    + unfold getitem. rewrite Hbad. cbn [bind truthy].
      destruct (IH tweet (probed ++ [u])%list Hbad)
        as [[Hall Heq]|[(before & v & after & -> & Hbefore & Hv & Heq)
                       |(before & v & after & -> & Hbefore & Hv & Heq)]].
      * left. split; [now constructor |].
        rewrite Heq. now rewrite <- app_assoc.
      * right. left. exists (u :: before), v, after.
        repeat split; [now constructor | assumption |].
        rewrite Heq. now rewrite <- app_assoc.
      * right. right. exists (u :: before), v, after.
        repeat split; [now constructor | assumption | exact Heq].
    + right. right. exists [], u, us.
      repeat split; [constructor | now apply escapes_iff].
Qed.

(** The loop on an entry that is already marked requests the first url, if
    there is one, and returns the entry as it was, unless that request
    raises an exception that is not caught. *)
Lemma check_loop_marked (us : list string) (tweet : gmap string json)
    (probed : list string) :
  tweet !! "bad" = Some (JBool true) ->
  check_loop requests_head (map JStr us) tweet probed
  = match us with
    | [] => Ok (tweet, probed)
    | u :: _ =>
        if escapes (requests_head u) then Raise RequestException
        else Ok (tweet, (probed ++ [u])%list)
    end.
Proof.
  intros Hbad. destruct us as [|u us]; [reflexivity |].
  cbn [map check_loop].
  destruct (escapes (requests_head u)); [reflexivity |].
  assert (Hsame : (if marks_bad (requests_head u)
                   then <["bad" := JBool true]> tweet else tweet) = tweet).
  { destruct (marks_bad (requests_head u)); [|reflexivity].
    now apply insert_id. }
  rewrite Hsame. unfold getitem. rewrite Hbad. reflexivity.
Qed.

Lemma check_trace_unfold (tweet : gmap string json) (us : list string) :
  tweet !! "urls" = Some (JArr (map JStr us)) ->
  check_urls_in_tweet_trace requests_head tweet
    = check_loop requests_head (map JStr us) tweet [].
Proof.
  intros H. unfold check_urls_in_tweet_trace, getitem. now rewrite H.
Qed.

End ProbeFacts.

Section Evaluate.

Variable requests_head : string -> outcome.


(** What [check_urls_in_tweet] does to an entry of the pipeline's shape: it
    returns the entry itself or the entry marked, or it raises the
    exception of a request. *)
Lemma check_urls_candidate (tweet : gmap string json) :
  is_candidate tweet = true ->
  (exists tweet',
     check_urls_in_tweet requests_head tweet = Ok tweet' /\
     (tweet' = tweet \/ tweet' = <["bad" := JBool true]> tweet)) \/
  (check_urls_in_tweet requests_head tweet = Raise RequestException /\
   exists us u,
     tweet !! "urls" = Some (JArr (map JStr us)) /\
     In u us /\ requests_head u = OtherError).
Proof.
  intros Hc. destruct (is_candidate_shape tweet Hc) as (us & b & Hurls & Hbad).
  unfold check_urls_in_tweet.
  rewrite (check_trace_unfold requests_head tweet us Hurls).
  destruct b.
  - rewrite (check_loop_marked requests_head us tweet [] Hbad).
    destruct us as [|u us].
    + left. exists tweet. split; [reflexivity | now left].
    + destruct (escapes (requests_head u)) eqn:He.
      * right. split; [reflexivity |]. exists (u :: us), u.
        repeat split; [assumption | now left | now apply escapes_iff].
      * left. exists tweet. split; [reflexivity | now left].
  - destruct (check_loop_unmarked requests_head us tweet [] Hbad)
      as [[_ Heq]|[(before & u & after & _ & _ & _ & Heq)
                  |(before & u & after & Hus & _ & Hu & Heq)]]; rewrite Heq.
    + left. exists tweet. split; [reflexivity | now left].
    + left. exists (<["bad" := JBool true]> tweet).
      split; [reflexivity | now right].
    + right. split; [reflexivity |]. exists us, u.
      repeat split; [assumption | | assumption].
      rewrite Hus. apply in_or_app. right. now left.
Qed.

Lemma check_urls_candidate_again (tweet tweet' : gmap string json) :
  is_candidate tweet = true ->
  check_urls_in_tweet requests_head tweet = Ok tweet' ->
  is_candidate tweet' = true /\ tweet' !! "urls" = tweet !! "urls".
Proof.
  intros Hc Heq.
  destruct (check_urls_candidate tweet Hc) as [(t & Ht & Hcase)|[Hr _]];
    [| congruence].
  rewrite Ht in Heq. injection Heq as <-.
  destruct Hcase as [->| ->]; [now split |].
  unfold is_candidate in *. rewrite lookup_insert_eq.
  rewrite lookup_insert_ne by discriminate.
  split; [| reflexivity].
  destruct (tweet !! "urls") as [[| | | |l|]|]; try discriminate.
  now destruct (tweet !! "bad") as [[|b| | | |]|].
Qed.


(** C9: whenever [check_urls_in_tweet] returns, it returns the entry it
    was given with at most the [bad] field changed: [id], [created_at],
    [text] and [urls], and every other key but [bad], are as in the
    argument.  On an entry of the pipeline's shape it returns unless the
    request for one of the urls raises an exception other than [Timeout]
    and [ConnectionError], which then leaves the function. *)
Theorem check_urls_frame (tweet : gmap string json) :
  is_candidate tweet = true ->
  (forall tweet',
     check_urls_in_tweet requests_head tweet = Ok tweet' ->
     tweet' !! "id" = tweet !! "id" /\
     tweet' !! "created_at" = tweet !! "created_at" /\
     tweet' !! "text" = tweet !! "text" /\
     tweet' !! "urls" = tweet !! "urls" /\
     (forall k, k <> "bad" -> tweet' !! k = tweet !! k) /\
     (exists b, tweet' !! "bad" = Some (JBool b))) /\
  ((exists tweet', check_urls_in_tweet requests_head tweet = Ok tweet') \/
   (check_urls_in_tweet requests_head tweet = Raise RequestException /\
    exists us u,
      tweet !! "urls" = Some (JArr (map JStr us)) /\
      In u us /\ requests_head u = OtherError)).
Proof.
  intros Hc. split.
  - intros tweet' Heq.
    destruct (check_urls_candidate tweet Hc) as [(t & Ht & Hcase)|[Hr _]];
      [| congruence].
    rewrite Ht in Heq. injection Heq as <-.
    assert (Hframe : forall k, k <> "bad" -> t !! k = tweet !! k).
    { intros k Hk. destruct Hcase as [->| ->]; [reflexivity |].
      now apply lookup_insert_ne. }
    repeat split; try (apply Hframe; discriminate); try exact Hframe.
    destruct (is_candidate_shape tweet Hc) as (us & b & _ & Hbad).
    destruct Hcase as [->| ->]; [now exists b |].
    exists true. apply lookup_insert_eq.
  - destruct (check_urls_candidate tweet Hc) as [(t & Ht & _)|Hr].
    + left. now exists t.
    + right. exact Hr.
Qed.

(** C10: an entry that is marked when [check_urls_in_tweet] is called is
    marked whenever the function returns it, whatever the requests yield:
    the function returns the entry as it is, after the request for its first
    url, unless that request raises an exception other than [Timeout] and
    [ConnectionError], which then leaves the function. *)
Theorem check_urls_keeps_mark (tweet : gmap string json) :
  is_candidate tweet = true ->
  tweet !! "bad" = Some (JBool true) ->
  (forall tweet',
     check_urls_in_tweet requests_head tweet = Ok tweet' ->
     tweet' !! "bad" = Some (JBool true)) /\
  (check_urls_in_tweet requests_head tweet = Ok tweet \/
   (check_urls_in_tweet requests_head tweet = Raise RequestException /\
    exists u us,
      tweet !! "urls" = Some (JArr (map JStr (u :: us))) /\
      requests_head u = OtherError)).
Proof.
  intros Hc Hbad.
  destruct (is_candidate_shape tweet Hc) as (us & b & Hurls & _).
  assert (Hcases :
            check_urls_in_tweet requests_head tweet = Ok tweet \/
            (check_urls_in_tweet requests_head tweet = Raise RequestException /\
             exists u us,
               tweet !! "urls" = Some (JArr (map JStr (u :: us))) /\
               requests_head u = OtherError)).
  { unfold check_urls_in_tweet.
    rewrite (check_trace_unfold requests_head tweet us Hurls).
    rewrite (check_loop_marked requests_head us tweet [] Hbad).
    destruct us as [|u us]; [now left |].
    destruct (escapes (requests_head u)) eqn:He; [| now left].
    right. split; [reflexivity |]. exists u, us.
    split; [assumption | now apply escapes_iff]. }
  split; [| exact Hcases].
  intros tweet' Heq. destruct Hcases as [Hok|[Hr _]]; [| congruence].
  rewrite Hok in Heq. now injection Heq as <-.
Qed.

End Evaluate.



(** The second url times out: the entry is marked and the third url is
    never requested. *)
Example check_urls_stops :
  check_urls_in_tweet_trace sample_net
    (sample_entry 2
       ["http://ok.example"; "http://slow.example"; "http://dead.example"]
       false)
  = Ok (sample_entry 2
          ["http://ok.example"; "http://slow.example"; "http://dead.example"]
          true,
        ["http://ok.example"; "http://slow.example"]).
Proof. reflexivity. Qed.

Example check_urls_404 :
  check_urls_in_tweet sample_net (sample_entry 2 ["http://dead.example"] false)
  = Ok (sample_entry 2 ["http://dead.example"] true).
Proof. reflexivity. Qed.

Example check_urls_200 :
  check_urls_in_tweet sample_net (sample_entry 3 ["http://ok.example"] false)
  = Ok (sample_entry 3 ["http://ok.example"] false).
Proof. reflexivity. Qed.

Example check_urls_403 :
  check_urls_in_tweet sample_net
    (sample_entry 3 ["http://forbidden.example"] false)
  = Ok (sample_entry 3 ["http://forbidden.example"] false).
Proof. reflexivity. Qed.



Lemma check_urls_frame_witness :
  let tweet := sample_entry 2 ["http://ok.example"; "http://dead.example"] false in
  (forall tweet',
     check_urls_in_tweet sample_net tweet = Ok tweet' ->
     tweet' !! "id" = tweet !! "id" /\
     tweet' !! "created_at" = tweet !! "created_at" /\
     tweet' !! "text" = tweet !! "text" /\
     tweet' !! "urls" = tweet !! "urls" /\
     (forall k, k <> "bad" -> tweet' !! k = tweet !! k) /\
     (exists b, tweet' !! "bad" = Some (JBool b))) /\
  ((exists tweet', check_urls_in_tweet sample_net tweet = Ok tweet') \/
   (check_urls_in_tweet sample_net tweet = Raise RequestException /\
    exists us u,
      tweet !! "urls" = Some (JArr (map JStr us)) /\
      In u us /\ sample_net u = OtherError)).
Proof.
  cbv zeta. apply (check_urls_frame sample_net). reflexivity.
Defined.

(** An entry of the pipeline's shape for which nothing is returned: the
    request for its second url raises [InvalidSchema]. *)
Example check_urls_returns_nothing :
  is_candidate
    (sample_entry 3 ["http://ok.example"; "ftp://files.example/a"] false)
  = true /\
  check_urls_in_tweet sample_net
    (sample_entry 3 ["http://ok.example"; "ftp://files.example/a"] false)
  = Raise RequestException.
Proof. split; reflexivity. Qed.

Lemma check_urls_keeps_mark_witness :
  let tweet := sample_entry 2 ["http://ok.example"; "http://ok2.example"] true in
  (forall tweet',
     check_urls_in_tweet sample_net tweet = Ok tweet' ->
     tweet' !! "bad" = Some (JBool true)) /\
  (check_urls_in_tweet sample_net tweet = Ok tweet \/
   (check_urls_in_tweet sample_net tweet = Raise RequestException /\
    exists u us,
      tweet !! "urls" = Some (JArr (map JStr (u :: us))) /\
      sample_net u = OtherError)).
Proof.
  cbv zeta. apply (check_urls_keeps_mark sample_net); reflexivity.
Defined.

(** A marked entry for which nothing is returned: the request for its
    first url raises [InvalidSchema]. *)
Example check_urls_marked_raises :
  sample_entry 4 ["ftp://files.example/a"] true !! "bad" = Some (JBool true) /\
  is_candidate (sample_entry 4 ["ftp://files.example/a"] true) = true /\
  check_urls_in_tweet sample_net (sample_entry 4 ["ftp://files.example/a"] true)
  = Raise RequestException.
Proof. repeat split; reflexivity. Qed.

(** A marked entry is returned after a single request. *)
Example check_urls_marked_one_request :
  check_urls_in_tweet_trace sample_net
    (sample_entry 2 ["http://ok.example"; "http://ok2.example"] true)
  = Ok (sample_entry 2 ["http://ok.example"; "http://ok2.example"] true,
        ["http://ok.example"]).
Proof. reflexivity. Qed.

(** The scheme of a url is not looked at: the string is handed to
    [requests], and an item that is not a string is refused. *)
Example check_urls_not_a_string :
  check_urls_in_tweet sample_net
    (<["urls" := JArr [JNum 5]]> (sample_entry 5 [] false))
  = Raise RequestException.
Proof. reflexivity. Qed.
(** ** The pool *)

Section ScanFacts.

Variable f : gmap string json -> result (gmap string json).
Variable processes : nat.

Lemma pool_step_outstanding (p q : pool) :
  pool_step f processes p q -> Permutation (outstanding f p) (outstanding f q).
Proof.
  intros Hstep. destruct Hstep as [task todo busy done _|todo busy1 task busy2 done];
    unfold outstanding; cbn [results running pending].
  - rewrite map_app. cbn [map]. rewrite <- (app_assoc (map f busy)).
    reflexivity.
  - rewrite !map_app. cbn [map]. rewrite <- !app_assoc. cbn [app].
    apply Permutation_app_head.
    rewrite (Permutation_middle (map f busy1) _ (f task)).
    reflexivity.
Qed.

Lemma pool_run_outstanding (p q : pool) :
  pool_run f processes p q -> Permutation (outstanding f p) (outstanding f q).
Proof.
  induction 1 as [p|p q r Hstep _ IH]; [reflexivity |].
  etransitivity; [exact (pool_step_outstanding p q Hstep) | exact IH].
Qed.

(** Whatever the workers do, the results are those of mapping [f] over the
    tasks, in some order. *)
Lemma imap_unordered_permutation (tasks : list (gmap string json))
    (out : list (result (gmap string json))) :
  imap_unordered f processes tasks out -> Permutation out (map f tasks).
Proof.
  intros Hrun. apply pool_run_outstanding in Hrun.
  unfold outstanding in Hrun. cbn in Hrun. rewrite app_nil_r in Hrun.
  symmetry. exact Hrun.
Qed.

Lemma pool_run_trans (p q r : pool) :
  pool_run f processes p q -> pool_run f processes q r ->
  pool_run f processes p r.
Proof.
  induction 1 as [p|p q' q Hstep _ IH]; intros Hqr; [exact Hqr |].
  eapply run_step; [exact Hstep | exact (IH Hqr)].
Qed.

(** With a worker at hand the pool can always finish: one run takes and
    finishes the tasks one after the other. *)
Lemma pool_run_in_order (tasks : list (gmap string json)) :
  (1 <= processes)%nat ->
  forall done,
    pool_run f processes (Pool tasks [] done)
      (Pool [] [] (done ++ map f tasks)%list).
Proof.
  intros Hw. induction tasks as [|task tasks IH]; intros done.
  - cbn. rewrite app_nil_r. apply run_stop.
  - eapply run_step.
    { apply step_take. cbn. lia. }
    eapply run_step.
    { cbn [app]. apply (step_finish f processes tasks [] task [] done). }
    cbn [app map].
    replace (done ++ f task :: map f tasks)%list
      with ((done ++ [f task]) ++ map f tasks)%list
      by (now rewrite <- app_assoc).
    apply IH.
Qed.

Lemma imap_unordered_exists (tasks : list (gmap string json)) :
  (1 <= processes)%nat -> imap_unordered f processes tasks (map f tasks).
Proof.
  intros Hw. exact (pool_run_in_order tasks Hw []).
Qed.

End ScanFacts.

(** ** Selection of the marked entries *)

Lemma bad_tweets_ok (ts : list (gmap string json)) :
  Forall (fun t => is_Some (t !! "bad")) ts ->
  bad_tweets (map Ok ts) = Ok (List.filter is_bad ts).
Proof.
  induction 1 as [|t ts [b Hb] _ IH]; [reflexivity |].
  cbn [map bad_tweets bind List.filter]. unfold getitem, is_bad.
  rewrite Hb, IH. reflexivity.
Qed.

Lemma bad_tweets_inv (out : list (result (gmap string json))) :
  forall selected,
    bad_tweets out = Ok selected ->
    forall t, In t selected -> In (Ok t) out.
Proof.
  induction out as [|r out IH]; intros selected H t Hin.
  - cbn in H. injection H as <-. destruct Hin.
  - cbn [bad_tweets] in H. destruct r as [t0|e]; [|discriminate].
    cbn [bind] in H. destruct (getitem t0 "bad") as [b|e]; [|discriminate].
    cbn [bind] in H. destruct (bad_tweets out) as [sel|e]; [|discriminate].
    cbn [bind] in H. injection H as <-.
    destruct (truthy b).
    + destruct Hin as [->|Hin]; [now left | right; eauto].
    + right; eauto.
Qed.

Lemma map_Ok_permutation (ts : list (gmap string json))
    (out : list (result (gmap string json))) :
  Permutation out (map Ok ts) ->
  exists ts', out = map Ok ts' /\ Permutation ts' ts.
Proof.
  intros H.
  destruct (Permutation_map_inv _ _ H) as (ts' & -> & Hperm).
  exists ts'. split; [reflexivity | now symmetry].
Qed.

Lemma filter_permutation {A : Type} (p : A -> bool) (l l' : list A) :
  Permutation l l' -> Permutation (List.filter p l) (List.filter p l').
Proof.
  induction 1 as [|x l l' _ IH|x y l|l l' l'' _ IH1 _ IH2]; cbn.
  - constructor.
  - destruct (p x); [now constructor | assumption].
  - destruct (p x), (p y); try reflexivity. apply perm_swap.
  - etransitivity; eassumption.
Qed.

(** ** Runs of the pool *)

(** With two workers the second entry may come back first. *)
Example imap_unordered_out_of_order :
  let a := sample_entry 1 ["http://slow.example"] false in
  let b := sample_entry 2 ["http://ok.example"] false in
  imap_unordered (check_urls_in_tweet sample_net) 2 [a; b]
    [Ok b; Ok (sample_entry 1 ["http://slow.example"] true)].
Proof.
  cbv zeta. unfold imap_unordered.
  eapply run_step. { apply step_take. cbn. lia. }
  eapply run_step. { apply step_take. cbn. lia. }
  eapply run_step.
  { apply (step_finish _ 2 [] [sample_entry 1 ["http://slow.example"] false]
             (sample_entry 2 ["http://ok.example"] false) [] []). }
  eapply run_step.
  { apply (step_finish _ 2 [] []
             (sample_entry 1 ["http://slow.example"] false) [] _). }
  apply run_stop.
Qed.

(** Without a worker nothing is ever taken. *)
Example imap_unordered_no_worker (requests_head : string -> outcome)
    (task : gmap string json) (tasks : list (gmap string json))
    (out : list (result (gmap string json))) :
  ~ imap_unordered (check_urls_in_tweet requests_head) 0 (task :: tasks) out.
Proof.
  unfold imap_unordered. intros Hrun.
  inversion Hrun as [|p q r Hstep _]; subst.
  inversion Hstep as [? ? ? ? Hlt|? busy1 ? ? ? Hbusy]; subst.
  - cbn in Hlt. lia.
  - destruct busy1; discriminate.
Qed.

(** ** The filters *)

Lemma lookup_kept (tweet : gmap string json) (k : string) :
  filter (fun kv : string * json => fst kv ∈ kept_keys) tweet !! k
  = if decide (k ∈ kept_keys) then tweet !! k else None.
Proof.
  destruct (decide (k ∈ kept_keys)) as [Hin|Hout].
  - destruct (tweet !! k) as [v|] eqn:Hk.
    + apply map_lookup_filter_Some. now split.
    + apply map_lookup_filter_None. left. exact Hk.
  - apply map_lookup_filter_None. right. intros v _. exact Hout.
Qed.

Lemma comprehension_expanded (l xs : list json) :
  expanded_of l = Some xs ->
  comprehension (fun url => subscript url "expanded_url") l = Ok xs /\
  length xs = length l.
Proof.
  revert xs. induction l as [|v l IH]; intros xs H.
  - cbn in H. injection H as <-. now split.
  - cbn [expanded_of] in H. destruct v as [| | | | |d]; try discriminate.
    destruct (d !! "expanded_url") as [x|] eqn:Hx; [|discriminate].
    destruct (expanded_of l) as [xs'|]; [|discriminate].
    injection H as <-. destruct (IH xs' eq_refl) as [Hc Hlen].
    cbn [comprehension subscript]. unfold getitem. rewrite Hx.
    cbn [bind]. rewrite Hc. cbn [bind length]. now rewrite Hlen.
Qed.

(** On a tweet of the feed's shape, [contains_url] tells whether
    [entities.urls] has an entry. *)
Lemma contains_url_shape (tweet : gmap string json) (xs : list json) :
  expanded_urls tweet = Some xs -> contains_url tweet = Ok (has_urls tweet).
Proof.
  unfold has_urls. intros H. rewrite H. unfold expanded_urls in H.
  unfold contains_url, getitem.
  destruct (tweet !! "entities") as [[| | | | |entities]|]; try discriminate.
  cbn [bind subscript]. unfold getitem.
  destruct (entities !! "urls") as [[| | | |l|]|]; try discriminate.
  cbn [bind truthy].
  destruct (comprehension_expanded l xs H) as [_ Hlen].
  destruct l, xs; try discriminate; reflexivity.
Qed.

Lemma make_entry_shape (tweet : gmap string json) (xs : list json) :
  expanded_urls tweet = Some xs ->
  make_entry tweet
  = Ok (<["bad" := JBool false]>
        (<["urls" := JArr xs]>
         (filter (fun kv : string * json => fst kv ∈ kept_keys) tweet))).
Proof.
  unfold expanded_urls, make_entry, getitem. intros H.
  destruct (tweet !! "entities") as [[| | | | |entities]|]; try discriminate.
  cbn [bind subscript]. unfold getitem.
  destruct (entities !! "urls") as [[| | | |l|]|]; try discriminate.
  cbn [bind iter].
  destruct (comprehension_expanded l xs H) as [-> _]. reflexivity.
Qed.

Lemma make_entry_entry_of (tweet : gmap string json) (xs : list json) :
  expanded_urls tweet = Some xs ->
  exists entry, make_entry tweet = Ok entry /\ entry_of tweet xs entry.
Proof.
  intros H. eexists. split; [exact (make_entry_shape tweet xs H) |].
  unfold entry_of.
  repeat split.
  - rewrite !lookup_insert_ne by discriminate. now rewrite lookup_kept.
  - rewrite !lookup_insert_ne by discriminate. now rewrite lookup_kept.
  - rewrite !lookup_insert_ne by discriminate. now rewrite lookup_kept.
  - rewrite lookup_insert_ne by discriminate. apply lookup_insert_eq.
  - apply lookup_insert_eq.
  - intros k Hk.
    assert (k <> "bad") by (intros ->; apply Hk; repeat constructor).
    assert (k <> "urls") by (intros ->; apply Hk; repeat constructor).
    rewrite !lookup_insert_ne by congruence.
    rewrite lookup_kept. destruct (decide (k ∈ kept_keys)) as [Hin|]; [|reflexivity].
    exfalso. apply Hk. unfold kept_keys in Hin.
    repeat (apply elem_of_cons in Hin as [->|Hin]; [repeat constructor |]).
    inversion Hin.
Qed.

(** X1: on tweets of the feed's shape, [filter_tweets_with_urls] returns
    one entry for each tweet whose [entities.urls] is not empty and none for
    the others, in the order of the tweets; the entry holds the tweet's
    [id], [created_at] and [text], under [urls] the [expanded_url] of every
    entry of [entities.urls] in their order, [bad] set to [False], and no
    other key. *)
Theorem filter_tweets_with_urls_entries (tweets : list (gmap string json)) :
  Forall (fun tweet => is_Some (expanded_urls tweet)) tweets ->
  exists entries,
    filter_tweets_with_urls tweets = Ok entries /\
    Forall2
      (fun tweet entry =>
         exists x xs,
           expanded_urls tweet = Some (x :: xs) /\
           entry !! "id" = tweet !! "id" /\
           entry !! "created_at" = tweet !! "created_at" /\
           entry !! "text" = tweet !! "text" /\
           entry !! "urls" = Some (JArr (x :: xs)) /\
           entry !! "bad" = Some (JBool false) /\
           forall k, k ∉ ["id"; "created_at"; "text"; "urls"; "bad"] ->
                     entry !! k = None)
      (List.filter has_urls tweets) entries.
Proof.
  induction 1 as [|tweet tweets [xs Hxs] _ (entries & Heq & Hall)].
  - exists []. split; [reflexivity | constructor].
  - cbn [filter_tweets_with_urls List.filter].
    rewrite (contains_url_shape tweet xs Hxs). cbn [bind].
    destruct (has_urls tweet) eqn:Hhas.
    + destruct (make_entry_entry_of tweet xs Hxs) as (entry & -> & Hentry).
      cbn [bind]. rewrite Heq. cbn [bind].
      exists (entry :: entries). split; [reflexivity |].
      constructor; [| exact Hall].
      unfold has_urls in Hhas. rewrite Hxs in Hhas.
      destruct xs as [|x xs]; [discriminate |].
      exists x, xs. split; [exact Hxs | exact Hentry].
    + exists entries. split; [exact Heq | exact Hall].
Qed.

(** ** Entries made from arbitrary tweets *)

(** Whenever [make_entry] returns, the entry is the kept keys of the tweet
    with [urls] and [bad] added. *)
Lemma make_entry_inv (tweet entry : gmap string json) :
  make_entry tweet = Ok entry ->
  exists xs,
    entry = <["bad" := JBool false]>
            (<["urls" := JArr xs]>
             (filter (fun kv : string * json => fst kv ∈ kept_keys) tweet)).
Proof.
  unfold make_entry. intros H.
  destruct (getitem tweet "entities") as [e|]; [|discriminate].
  cbn [bind] in H. destruct (subscript e "urls") as [u|]; [|discriminate].
  cbn [bind] in H. destruct (iter u) as [items|]; [|discriminate].
  cbn [bind] in H.
  destruct (comprehension (fun url => subscript url "expanded_url") items)
    as [xs|]; [|discriminate].
  cbn [bind] in H. injection H as <-. now exists xs.
Qed.

Lemma comprehension_length {A B : Type} (g : A -> result B) (l : list A)
    (ys : list B) :
  comprehension g l = Ok ys -> length ys = length l.
Proof.
  revert ys. induction l as [|x l IH]; intros ys H.
  - cbn in H. now injection H as <-.
  - cbn [comprehension] in H. destruct (g x) as [y|]; [|discriminate].
    cbn [bind] in H. destruct (comprehension g l) as [ys'|]; [|discriminate].
    cbn [bind] in H. injection H as <-. cbn. now rewrite (IH ys' eq_refl).
Qed.

(** A tweet for which [contains_url] says yes and [make_entry] returns has
    an entry with at least one url. *)
Lemma make_entry_nonempty (tweet entry : gmap string json) :
  contains_url tweet = Ok true ->
  make_entry tweet = Ok entry ->
  nonempty_urls entry.
Proof.
  unfold contains_url, make_entry. intros Hc Hm.
  destruct (getitem tweet "entities") as [e|]; [|discriminate].
  cbn [bind] in Hc, Hm. destruct (subscript e "urls") as [u|]; [|discriminate].
  cbn [bind] in Hc, Hm. destruct (truthy u) eqn:Hu; [|discriminate].
  destruct (iter u) as [items|] eqn:Hitems; [|discriminate].
  cbn [bind] in Hm.
  destruct (comprehension (fun url => subscript url "expanded_url") items)
    as [xs|] eqn:Hxs; [|discriminate].
  cbn [bind] in Hm. injection Hm as <-.
  assert (Hne : items <> []).
  { destruct u as [| | |s|l|d]; try discriminate; cbn in Hitems, Hu;
      injection Hitems as <-.
    - destruct s; [discriminate | cbn; discriminate].
    - destruct l; [discriminate | discriminate].
    - intros Hnil. apply map_eq_nil in Hnil.
      apply map_to_list_empty_iff in Hnil. subst d.
      rewrite bool_decide_eq_true_2 in Hu by reflexivity. discriminate. }
  apply comprehension_length in Hxs.
  destruct xs as [|x xs].
  - destruct items; [congruence | discriminate].
  - exists x, xs. rewrite lookup_insert_ne by discriminate.
    apply lookup_insert_eq.
Qed.

Lemma filter_tweets_with_urls_nonempty (tweets : list (gmap string json)) :
  forall entries,
    filter_tweets_with_urls tweets = Ok entries ->
    Forall nonempty_urls entries.
Proof.
  induction tweets as [|tweet tweets IH]; intros entries H.
  - cbn in H. injection H as <-. constructor.
  - cbn [filter_tweets_with_urls] in H.
    destruct (contains_url tweet) as [[|]|] eqn:Hc; cbn [bind] in H;
      [| now apply IH | discriminate].
    destruct (make_entry tweet) as [entry|] eqn:Hm; [|discriminate].
    cbn [bind] in H.
    destruct (filter_tweets_with_urls tweets) as [rest|]; [|discriminate].
    cbn [bind] in H. injection H as <-.
    constructor; [exact (make_entry_nonempty tweet entry Hc Hm) | now apply IH].
Qed.

Lemma filter_tweets_with_urls_keys (tweets : list (gmap string json)) :
  forall entries,
    filter_tweets_with_urls tweets = Ok entries ->
    Forall (fun entry =>
              forall k, k ∉ ["id"; "created_at"; "text"; "urls"; "bad"] ->
                        entry !! k = None) entries.
Proof.
  induction tweets as [|tweet tweets IH]; intros entries H.
  - cbn in H. injection H as <-. constructor.
  - cbn [filter_tweets_with_urls] in H.
    destruct (contains_url tweet) as [[|]|] eqn:Hc; cbn [bind] in H;
      [| now apply IH | discriminate].
    destruct (make_entry tweet) as [entry|] eqn:Hm; [|discriminate].
    cbn [bind] in H.
    destruct (filter_tweets_with_urls tweets) as [rest|]; [|discriminate].
    cbn [bind] in H. injection H as <-.
    constructor; [| now apply IH].
    destruct (make_entry_inv tweet entry Hm) as [xs ->].
    intros k Hk.
    assert (k <> "bad") by (intros ->; apply Hk; repeat constructor).
    assert (k <> "urls") by (intros ->; apply Hk; repeat constructor).
    rewrite !lookup_insert_ne by congruence.
    rewrite lookup_kept. destruct (decide (k ∈ kept_keys)) as [Hin|]; [|reflexivity].
    exfalso. apply Hk. unfold kept_keys in Hin.
    repeat (apply elem_of_cons in Hin as [->|Hin]; [repeat constructor |]).
    inversion Hin.
Qed.

Lemma check_urls_same_keys (requests_head : string -> outcome)
    (tweet tweet' : gmap string json) :
  check_urls_in_tweet requests_head tweet = Ok tweet' ->
  forall k, k <> "bad" -> tweet' !! k = tweet !! k.
Proof.
  unfold check_urls_in_tweet, check_urls_in_tweet_trace. intros H k Hk.
  destruct (getitem tweet "urls") as [us|]; [|discriminate].
  cbn [bind] in H. destruct (iter us) as [urls|]; [|discriminate].
  cbn [bind] in H.
  destruct (check_loop requests_head urls tweet []) as [[t probed]|] eqn:Hl;
    [|discriminate].
  cbn [bind fst] in H. injection H as <-.
  exact (check_loop_frame requests_head urls tweet [] t probed Hl k Hk).
Qed.

Lemma nonempty_urls_checked (requests_head : string -> outcome)
    (tweet tweet' : gmap string json) :
  nonempty_urls tweet ->
  check_urls_in_tweet requests_head tweet = Ok tweet' ->
  nonempty_urls tweet'.
Proof.
  intros (u & us & Hu) H. exists u, us.
  rewrite (check_urls_same_keys requests_head tweet tweet' H "urls")
    by discriminate.
  exact Hu.
Qed.

(** X2: every entry that [filter_tweets_with_urls] returns, whatever the tweets
    were, has at least one url; so has what [check_urls_in_tweet] returns
    for it, and so has every entry selected as bad after a scan with any
    number of workers. *)
Theorem entries_have_urls (requests_head : string -> outcome)
    (processes : nat) (tweets entries : list (gmap string json)) :
  filter_tweets_with_urls tweets = Ok entries ->
  Forall nonempty_urls entries /\
  (forall entry entry',
     In entry entries ->
     check_urls_in_tweet requests_head entry = Ok entry' ->
     nonempty_urls entry') /\
  (forall out selected,
     imap_unordered (check_urls_in_tweet requests_head) processes entries out ->
     bad_tweets out = Ok selected ->
     Forall nonempty_urls selected).
Proof.
  intros H. pose proof (filter_tweets_with_urls_nonempty tweets entries H) as Hne.
  assert (Hcheck : forall entry entry',
             In entry entries ->
             check_urls_in_tweet requests_head entry = Ok entry' ->
             nonempty_urls entry').
  { intros entry entry' Hin Hc. rewrite Forall_forall in Hne.
    apply (nonempty_urls_checked requests_head entry entry'); [| exact Hc].
    apply Hne. now apply list_elem_of_In. }
  split; [exact Hne |]. split; [exact Hcheck |].
  intros out selected Hrun Hsel. apply Forall_forall. intros t Ht.
  apply list_elem_of_In in Ht.
  pose proof (bad_tweets_inv out selected Hsel t Ht) as Hout.
  apply imap_unordered_permutation in Hrun.
  apply (Permutation_in _ Hrun) in Hout.
  apply in_map_iff in Hout as (entry & Hc & Hin).
  exact (Hcheck entry t Hin Hc).
Qed.

Lemma entries_have_urls_witness :
  Forall nonempty_urls [sample_entry 2 ["http://dead.example"] false].
Proof.
  apply (entries_have_urls sample_net 4
           [sample_post 1 "no link" false [];
            sample_post 2 "check this http://x" false ["http://dead.example"]]).
  reflexivity.
Defined.

(** X3: the entries of the pipeline are not tweets of the feed: they carry no
    [retweeted] key.  Passing a result that is not empty through the
    pipeline again raises [KeyError] for that key. *)
Theorem pipeline_again_raises (tweets : list (gmap string json))
    (entry : gmap string json) (entries : list (gmap string json)) :
  pipeline tweets = Ok (entry :: entries) ->
  pipeline (entry :: entries) = Raise (KeyError "retweeted").
Proof.
  unfold pipeline at 1. intros H.
  destruct (filter_retweets tweets) as [kept|]; [|discriminate].
  cbn [bind] in H. apply filter_tweets_with_urls_keys in H.
  inversion H as [|? ? Hkeys _]; subst.
  assert (Hnone : entry !! "retweeted" = None).
  { apply Hkeys. intros Hin.
    repeat (apply elem_of_cons in Hin as [Hin|Hin]; [discriminate |]).
    inversion Hin. }
  unfold pipeline. cbn [filter_retweets]. unfold is_retweet, getitem.
  rewrite Hnone. reflexivity.
Qed.

Lemma pipeline_again_raises_witness :
  pipeline [sample_entry 2 ["http://dead.example"] false]
  = Raise (KeyError "retweeted").
Proof.
  apply (pipeline_again_raises
           [sample_post 2 "check this http://x" false ["http://dead.example"]]).
  reflexivity.
Defined.

(** ** The retweet filter *)

(** A tweet that [is_retweet] accepts as no retweet. *)
Lemma filter_retweets_inv (tweets : list (gmap string json)) :
  forall kept,
    filter_retweets tweets = Ok kept ->
    Forall (fun t => exists b, is_retweet t = Ok b) tweets /\
    kept = List.filter not_retweet tweets.
Proof.
  induction tweets as [|t tweets IH]; intros kept H.
  - cbn in H. injection H as <-. split; [constructor | reflexivity].
  - cbn [filter_retweets] in H. cbn [List.filter]. unfold not_retweet at 1.
    destruct (is_retweet t) as [b|] eqn:Ht; [|discriminate].
    cbn [bind] in H.
    destruct (filter_retweets tweets) as [rest|]; [|discriminate].
    cbn [bind] in H. injection H as <-.
    destruct (IH rest eq_refl) as [Hall ->].
    split; [constructor; [now exists b | exact Hall] |].
    now destruct b.
Qed.

Lemma filter_retweets_all (tweets : list (gmap string json)) :
  Forall (fun t => exists b, is_retweet t = Ok b) tweets ->
  filter_retweets tweets = Ok (List.filter not_retweet tweets).
Proof.
  induction 1 as [|t tweets [b Hb] _ IH]; [reflexivity |].
  cbn [filter_retweets List.filter]. unfold not_retweet at 1.
  rewrite Hb, IH. cbn [bind]. now destruct b.
Qed.

(** X5: [filter_retweets] returns exactly when [is_retweet] returns on every
    tweet, and then keeps, in their order, the tweets that are no retweets. *)
Theorem filter_retweets_keeps (tweets kept : list (gmap string json)) :
  filter_retweets tweets = Ok kept <->
  Forall (fun t => exists b, is_retweet t = Ok b) tweets /\
  kept = List.filter not_retweet tweets.
Proof.
  split.
  - apply filter_retweets_inv.
  - intros [Hall ->]. now apply filter_retweets_all.
Qed.

(** X6: the first tweet on which [is_retweet] raises decides: its exception is
    the one of [filter_retweets], whatever the other tweets are. *)
Theorem filter_retweets_first_error (good : list (gmap string json))
    (t : gmap string json) (rest : list (gmap string json)) (e : exn) :
  Forall (fun t => exists b, is_retweet t = Ok b) good ->
  is_retweet t = Raise e ->
  filter_retweets (good ++ t :: rest)%list = Raise e /\
  pipeline (good ++ t :: rest)%list = Raise e.
Proof.
  intros Hgood Ht.
  assert (H : filter_retweets (good ++ t :: rest)%list = Raise e).
  { induction Hgood as [|g good [b Hb] _ IH].
    - cbn [app filter_retweets]. now rewrite Ht.
    - cbn [app filter_retweets]. rewrite Hb, IH. reflexivity. }
  split; [exact H |]. unfold pipeline. now rewrite H.
Qed.

Lemma filter_retweets_first_error_witness :
  filter_retweets
    ([sample_post 1 "fine" false []]
       ++ delete "retweeted" (sample_post 2 "no flag" false [])
       :: [sample_post 3 "fine too" false []])%list
  = Raise (KeyError "retweeted") /\
  pipeline
    ([sample_post 1 "fine" false []]
       ++ delete "retweeted" (sample_post 2 "no flag" false [])
       :: [sample_post 3 "fine too" false []])%list
  = Raise (KeyError "retweeted").
Proof.
  apply filter_retweets_first_error.
  - repeat constructor. now exists false.
  - reflexivity.
Defined.

(** ** Filtering twice *)

Lemma passes_both (tweet : gmap string json) :
  passes tweet = not_retweet tweet && with_url tweet.
Proof.
  unfold passes, not_retweet, with_url.
  destruct (is_retweet tweet) as [[|]|], (contains_url tweet) as [[|]|];
    reflexivity.
Qed.

Lemma filter_passes (tweets : list (gmap string json)) :
  List.filter passes tweets
  = List.filter with_url (List.filter not_retweet tweets).
Proof.
  induction tweets as [|t tweets IH]; [reflexivity |].
  cbn [List.filter]. rewrite passes_both.
  destruct (not_retweet t); cbn [andb List.filter]; [| exact IH].
  destruct (with_url t); now rewrite IH.
Qed.

Lemma filter_retweets_fixed (l : list (gmap string json)) :
  Forall (fun t => not_retweet t = true) l -> filter_retweets l = Ok l.
Proof.
  induction 1 as [|t l Ht _ IH]; [reflexivity |].
  cbn [filter_retweets]. unfold not_retweet in Ht.
  destruct (is_retweet t) as [[|]|]; try discriminate.
  cbn [bind]. now rewrite IH.
Qed.

Lemma filter_tweets_with_urls_survivors (l : list (gmap string json)) :
  forall entries,
    filter_tweets_with_urls l = Ok entries ->
    filter_tweets_with_urls (List.filter with_url l) = Ok entries /\
    length entries = length (List.filter with_url l).
Proof.
  induction l as [|t l IH]; intros entries H.
  - cbn in H. injection H as <-. now split.
  - cbn [filter_tweets_with_urls] in H. cbn [List.filter].
    destruct (contains_url t) as [[|]|] eqn:Hc; cbn [bind] in H;
      [| | discriminate].
    + assert (Hw : with_url t = true) by (unfold with_url; now rewrite Hc).
      rewrite Hw.
      destruct (make_entry t) as [entry|] eqn:Hm; [|discriminate].
      cbn [bind] in H.
      destruct (filter_tweets_with_urls l) as [rest|]; [|discriminate].
      cbn [bind] in H. injection H as <-.
      destruct (IH rest eq_refl) as [Heq Hlen].
      cbn [filter_tweets_with_urls]. rewrite Hc. cbn [bind]. rewrite Hm.
      cbn [bind]. rewrite Heq. cbn [bind length]. now rewrite Hlen.
    + assert (Hw : with_url t = false) by (unfold with_url; now rewrite Hc).
      rewrite Hw. now apply IH.
Qed.

(** X4: filtering the tweets changes nothing when done again on the tweets that
    got through: when the pipeline returns, the tweets that pass both
    filters pass [filter_retweets] unchanged, and the pipeline makes from
    them the same entries, one for each, as from all the tweets. *)
Theorem pipeline_on_survivors (tweets entries : list (gmap string json)) :
  pipeline tweets = Ok entries ->
  filter_retweets (List.filter passes tweets) = Ok (List.filter passes tweets) /\
  pipeline (List.filter passes tweets) = Ok entries /\
  length entries = length (List.filter passes tweets).
Proof.
  unfold pipeline at 1. intros H.
  destruct (filter_retweets tweets) as [kept|] eqn:Hk; [|discriminate].
  cbn [bind] in H. apply filter_retweets_inv in Hk as [_ ->].
  destruct (filter_tweets_with_urls_survivors _ entries H) as [Heq Hlen].
  rewrite filter_passes.
  assert (Hfix : filter_retweets
                   (List.filter with_url (List.filter not_retweet tweets))
                 = Ok (List.filter with_url (List.filter not_retweet tweets))).
  { apply filter_retweets_fixed. apply Forall_forall. intros t Ht.
    apply list_elem_of_In in Ht. apply filter_In in Ht as [Ht _].
    now apply filter_In in Ht as [_ Ht]. }
  split; [exact Hfix |]. split; [| exact Hlen].
  unfold pipeline. rewrite Hfix. exact Heq.
Qed.

Lemma pipeline_on_survivors_witness :
  let tweets :=
    [sample_post 1 "RT @a hi" false ["http://ok.example"];
     sample_post 2 "check this http://x" false ["http://dead.example"];
     sample_post 3 "no link" false []] in
  filter_retweets (List.filter passes tweets) = Ok (List.filter passes tweets) /\
  pipeline (List.filter passes tweets)
  = Ok [sample_entry 2 ["http://dead.example"] false] /\
  length [sample_entry 2 ["http://dead.example"] false]
  = length (List.filter passes tweets).
Proof.
  cbv zeta. apply pipeline_on_survivors. reflexivity.
Defined.

(** ** Selection *)

(** X8: when a worker raised, the selection raises too, whatever the other
    results are: the first exception in the order of arrival is raised
    again, and no entry is selected. *)
Theorem bad_tweets_reraises (ts : list (gmap string json)) (e : exn)
    (rest : list (result (gmap string json))) :
  Forall (fun t => is_Some (t !! "bad")) ts ->
  bad_tweets (map Ok ts ++ Raise e :: rest)%list = Raise e.
Proof.
  induction 1 as [|t ts [b Hb] _ IH].
  - reflexivity.
  - cbn [map app bad_tweets bind]. unfold getitem. rewrite Hb. cbn [bind].
    rewrite IH. reflexivity.
Qed.

Lemma bad_tweets_reraises_witness :
  bad_tweets
    (map Ok [sample_entry 1 ["http://dead.example"] true]
       ++ Raise RequestException
       :: [Ok (sample_entry 2 ["http://dead.example"] true)])%list
  = Raise RequestException.
Proof.
  apply bad_tweets_reraises. repeat constructor. now exists (JBool true).
Defined.

(** X9: the selected entries are the marked ones, in the order of arrival; no
    entry is selected twice or made up. *)
Theorem bad_tweets_selects (ts : list (gmap string json)) :
  Forall (fun t => is_Some (t !! "bad")) ts ->
  exists selected,
    bad_tweets (map Ok ts) = Ok selected /\
    selected = List.filter is_bad ts /\
    (forall t, In t selected <-> In t ts /\ is_bad t = true) /\
    (length selected <= length ts)%nat.
Proof.
  intros H. exists (List.filter is_bad ts).
  split; [now apply bad_tweets_ok |]. split; [reflexivity |].
  split; [intros t; apply filter_In |].
  clear H. induction ts as [|t ts IH]; [cbn; lia |].
  cbn [List.filter]. destruct (is_bad t); cbn [length]; lia.
Qed.

Lemma bad_tweets_selects_witness :
  exists selected,
    bad_tweets (map Ok [sample_entry 1 ["http://ok.example"] false;
                        sample_entry 2 ["http://dead.example"] true])
    = Ok selected /\
    selected = List.filter is_bad [sample_entry 1 ["http://ok.example"] false;
                                   sample_entry 2 ["http://dead.example"] true] /\
    (forall t, In t selected <->
               In t [sample_entry 1 ["http://ok.example"] false;
                     sample_entry 2 ["http://dead.example"] true] /\
               is_bad t = true) /\
    (length selected <= 2)%nat.
Proof.
  apply bad_tweets_selects. repeat constructor; eexists; reflexivity.
Defined.

(** ** The loader *)

Section LoaderFacts.

Variable loads : string -> option json.

Lemma load_lines_spec (lines : list string) :
  forall tweets,
  exists good rest parsed,
    lines = (good ++ rest)%list /\
    Forall2 (fun line tweet => loads line = Some tweet) good parsed /\
    fst (load_lines loads lines tweets) = (tweets ++ parsed)%list /\
    ((rest = [] /\ snd (load_lines loads lines tweets) = []) \/
     (exists line rest',
        rest = line :: rest' /\ loads line = None /\
        snd (load_lines loads lines tweets) = [CannotParseJSONFile])).
Proof.
  induction lines as [|line lines IH]; intros tweets.
  - exists [], [], []. cbn. rewrite app_nil_r.
    repeat split; [constructor | now left].
  - cbn [load_lines]. destruct (loads line) as [tweet|] eqn:Hline.
    + destruct (IH (tweets ++ [tweet])%list)
        as (good & rest & parsed & -> & Hall & Hfst & Hsnd).
      exists (line :: good), rest, (tweet :: parsed).
      repeat split.
      * now constructor.
      * rewrite Hfst. now rewrite <- app_assoc.
      * exact Hsnd.
    + exists [], (line :: lines), []. cbn. rewrite app_nil_r.
      repeat split; [constructor |]. right. now exists line, lines.
Qed.

(** X10: [load_tweets_from_file] stops at the first line that is not JSON: it
    returns the tweets of the lines before it, in their order, prints its
    message once, and reads none of the lines after it.  When every line
    is JSON, all are returned and nothing is printed. *)
Theorem load_stops_at_first_error (files : string -> option (list string))
    (filename : string) (lines : list string) :
  files filename = Some lines ->
  exists good rest,
    lines = (good ++ rest)%list /\
    Forall2 (fun line tweet => loads line = Some tweet) good
      (fst (load_tweets_from_file loads files filename)) /\
    ((rest = [] /\ snd (load_tweets_from_file loads files filename) = []) \/
     (exists line rest',
        rest = line :: rest' /\ loads line = None /\
        snd (load_tweets_from_file loads files filename)
        = [CannotParseJSONFile])).
Proof.
  intros Hfile. unfold load_tweets_from_file. rewrite Hfile.
  destruct (load_lines_spec lines [])
    as (good & rest & parsed & Hlines & Hall & Hfst & Hsnd).
  exists good, rest. cbn [app] in Hfst. rewrite Hfst.
  repeat split; assumption.
Qed.

End LoaderFacts.

Lemma load_stops_at_first_error_witness :
  exists good rest,
    [dq "{'id':1,'text':'one'}"; "oops"; dq "{'id':3,'text':'three'}"]
    = (good ++ rest)%list /\
    Forall2 (fun line tweet => json_loads line = Some tweet) good
      (fst (load_tweets_from_file json_loads sample_files "tweet_dump.json")) /\
    ((rest = [] /\
      snd (load_tweets_from_file json_loads sample_files "tweet_dump.json") = []) \/
     (exists line rest',
        rest = line :: rest' /\ json_loads line = None /\
        snd (load_tweets_from_file json_loads sample_files "tweet_dump.json")
        = [CannotParseJSONFile])).
Proof.
  apply (load_stops_at_first_error json_loads sample_files "tweet_dump.json").
  reflexivity.
Defined.

(** ** Confirmation *)

Lemma lower_ascii_y (c : ascii) :
  lower_ascii c = "y"%char <-> c = "y"%char \/ c = "Y"%char.
Proof.
  split.
  - destruct c as [[] [] [] [] [] [] [] []]; vm_compute; intros H;
      first [discriminate H | now left | now right].
  - intros [->| ->]; reflexivity.
Qed.

Lemma lower_ascii_e (c : ascii) :
  lower_ascii c = "e"%char <-> c = "e"%char \/ c = "E"%char.
Proof.
  split.
  - destruct c as [[] [] [] [] [] [] [] []]; vm_compute; intros H;
      first [discriminate H | now left | now right].
  - intros [->| ->]; reflexivity.
Qed.

Lemma lower_ascii_s (c : ascii) :
  lower_ascii c = "s"%char <-> c = "s"%char \/ c = "S"%char.
Proof.
  split.
  - destruct c as [[] [] [] [] [] [] [] []]; vm_compute; intros H;
      first [discriminate H | now left | now right].
  - intros [->| ->]; reflexivity.
Qed.

Lemma lower_y (reply : string) :
  lower reply = "y" <-> reply = "y" \/ reply = "Y".
Proof.
  split.
  - destruct reply as [|c [|d reply]]; cbn [lower]; intros H; try discriminate.
    injection H as H. apply lower_ascii_y in H as [->| ->]; auto.
  - intros [->| ->]; reflexivity.
Qed.

Lemma lower_yes (reply : string) :
  lower reply = "yes" <->
  In reply ["yes"; "yeS"; "yEs"; "yES"; "Yes"; "YeS"; "YEs"; "YES"].
Proof.
  split.
  - destruct reply as [|a [|b [|c [|d reply]]]]; cbn [lower]; intros H;
      try discriminate.
    injection H as Ha Hb Hc.
    apply lower_ascii_y in Ha as [->| ->];
      apply lower_ascii_e in Hb as [->| ->];
      apply lower_ascii_s in Hc as [->| ->]; cbn;
      repeat (first [left; reflexivity | right]).
  - cbn. intros H.
    repeat (destruct H as [<-|H]; [reflexivity |]). destruct H.
Qed.

Lemma affirmative_iff (reply : string) :
  affirmative reply = true <->
  In reply ["y"; "Y"; "yes"; "yeS"; "yEs"; "yES"; "Yes"; "YeS"; "YEs"; "YES"].
Proof.
  unfold affirmative. rewrite orb_true_iff, !String.eqb_eq, lower_y, lower_yes.
  cbn [In]. intuition congruence.
Qed.

(** X11: [request_confirmation] asks once, with the question followed by
    [ [yn]? ], takes one line of the input, touches no file, and returns
    [True] exactly for [y] and [yes] in any mix of upper and lower case:
    nothing is trimmed, and every other reply counts as no. *)
Theorem request_confirmation_accepts (question reply : string) (w : world)
    (rest : list string) :
  stdin w = reply :: rest ->
  exists yes,
    request_confirmation question w
    = (inl yes,
       World rest (log w ++ [Asked (question ++ " [yn]? ")%string])%list
         (files w)) /\
    (yes = true <->
     In reply ["y"; "Y"; "yes"; "yeS"; "yEs"; "yES"; "Yes"; "YeS"; "YEs"; "YES"]).
Proof.
  intros Hin. exists (affirmative reply). split.
  - unfold request_confirmation, io_bind, input. rewrite Hin.
    now destruct (affirmative reply).
  - apply affirmative_iff.
Qed.

Lemma request_confirmation_accepts_witness :
  exists yes,
    request_confirmation "Delete 'hello" (fresh [" y"; "y"])
    = (inl yes, World ["y"] [Asked "Delete 'hello [yn]? "] ∅) /\
    (yes = true <->
     In " y" ["y"; "Y"; "yes"; "yeS"; "yEs"; "yES"; "Yes"; "YeS"; "YEs"; "YES"]).
Proof.
  apply (request_confirmation_accepts "Delete 'hello" " y" (fresh [" y"; "y"]) ["y"]).
  reflexivity.
Defined.

(** At the end of the input the question is still asked, and [input]
    raises [EOFError]. *)
Example request_confirmation_eof :
  request_confirmation "ok" (fresh [])
  = (inr EOFError, World [] [Asked "ok [yn]? "] ∅).
Proof. reflexivity. Qed.

(** ** Deletion *)

Lemma destroyed_app (l1 l2 : list event) :
  destroyed (l1 ++ l2)%list = (destroyed l1 ++ destroyed l2)%list.
Proof.
  induction l1 as [|[text|prompt|id] l1 IH]; cbn; [reflexivity | | |];
    now rewrite IH.
Qed.

Lemma asked_app (l1 l2 : list event) :
  asked (l1 ++ l2)%list = (asked l1 ++ asked l2)%list.
Proof.
  induction l1 as [|[text|prompt|id] l1 IH]; cbn; [reflexivity | | |];
    now rewrite IH.
Qed.

Lemma append_assoc (a b c : string) :
  ((a ++ b) ++ c)%string = (a ++ b ++ c)%string.
Proof.
  induction a as [|x a IH]; [reflexivity |].
  change (String x ((a ++ b) ++ c) = String x (a ++ b ++ c))%string.
  now rewrite IH.
Qed.

Section DeleteFacts.

Variable destroy_ok : json -> bool.

(** One call of [delete_tweet] in interactive mode: the files are left
    alone, the log grows, and [api.destroy_status] is called at most once,
    with the id of the tweet and after an affirmative reply. *)
Lemma delete_tweet_step (tweet : gmap string json) (w : world) :
  files (snd (delete_tweet destroy_ok tweet true w)) = files w /\
  exists new more,
    log (snd (delete_tweet destroy_ok tweet true w)) = (log w ++ new)%list /\
    ids (confirmed [tweet] (stdin w)) = (destroyed new ++ more)%list /\
    (fst (delete_tweet destroy_ok tweet true w) = inl tt ->
     more = [] /\
     exists reply rest,
       stdin w = reply :: rest /\
       stdin (snd (delete_tweet destroy_ok tweet true w)) = rest).
Proof.
  unfold delete_tweet, io_bind, lift, getitem, str_add, request_confirmation,
    io_bind, input, destroy_status, io_bind, emit, ret, fail, ids.
  destruct w as [replies l fs]. cbn [stdin log files].
  destruct (tweet !! "text") as [text|] eqn:Htext.
  2:{ split; [reflexivity |]. exists [], (ids (confirmed [tweet] replies)).
      cbn. rewrite app_nil_r. repeat split; discriminate. }
  destruct text as [| | |text| |];
    try (split; [reflexivity |]; exists [], (ids (confirmed [tweet] replies));
         cbn; rewrite app_nil_r; repeat split; discriminate).
  cbn [fst snd].
  destruct replies as [|reply rest].
  { cbn. split; [reflexivity |]. eexists [_], []. cbn.
    repeat split; discriminate. }
  cbn [confirmed stdin log files fst snd].
  destruct (affirmative reply); cbn.
  - destruct (tweet !! "id") as [id|] eqn:Hid; cbn.
    + destruct (destroy_ok id); cbn; (split; [reflexivity |]);
        eexists [_; _; _], []; cbn; rewrite <- !app_assoc; cbn;
        repeat split; try discriminate; eauto.
    + split; [reflexivity |]. eexists [_; _], []. cbn.
      rewrite <- !app_assoc. cbn. repeat split; discriminate.
  - split; [reflexivity |]. eexists [_; _], []. cbn.
    rewrite <- !app_assoc. cbn. repeat split; eauto.
Qed.

Lemma confirmed_cons (tweet : gmap string json)
    (tweets : list (gmap string json)) (reply : string) (rest : list string) :
  ids (confirmed (tweet :: tweets) (reply :: rest))
  = (ids (confirmed [tweet] (reply :: rest)) ++ ids (confirmed tweets rest))%list.
Proof.
  unfold ids. cbn [confirmed]. destruct (affirmative reply); [| reflexivity].
  cbn [omap list_omap]. now destruct (tweet !! "id").
Qed.

Lemma delete_all_prefix (tweets : list (gmap string json))
    (w : world) :
  exists new more,
    log (snd (delete_all destroy_ok tweets w)) = (log w ++ new)%list /\
    files (snd (delete_all destroy_ok tweets w)) = files w /\
    ids (confirmed tweets (stdin w)) = (destroyed new ++ more)%list.
Proof.
  revert w. induction tweets as [|tweet tweets IH]; intros w.
  - exists [], []. cbn. rewrite app_nil_r. now destruct (stdin w).
  - cbn [delete_all]. unfold io_bind.
    destruct (delete_tweet_step tweet w)
      as (Hfiles & new1 & more1 & Hlog & Hids & Hok).
    destruct (delete_tweet destroy_ok tweet true w) as [[[]|e] w1] eqn:Hstep;
      cbn [fst snd] in *.
    + destruct (Hok eq_refl) as (-> & reply & rest & Hin & Hrest).
      destruct (IH w1) as (new2 & more2 & Hlog2 & Hfiles2 & Hids2).
      exists (new1 ++ new2)%list, more2.
      rewrite Hlog2, Hlog, Hfiles2, Hfiles, <- app_assoc.
      repeat split. rewrite Hin in Hids |- *. rewrite Hrest in Hids2.
      rewrite confirmed_cons, Hids, Hids2, destroyed_app, app_nil_r.
      now rewrite app_assoc.
    + destruct (stdin w) as [|reply rest] eqn:Hin.
      * exists new1, more1. repeat split; assumption.
      * exists new1, (more1 ++ ids (confirmed tweets rest))%list.
        repeat split; try assumption.
        rewrite confirmed_cons, Hids. now rewrite <- app_assoc.
Qed.

(** X12: the deletion loop never calls [api.destroy_status] but for a tweet of
    the list, in the order of the list, once, and after an affirmative reply
    to the question about that tweet: whatever the tweets, the replies and
    the API do, the ids destroyed are the first ones among the ids of the
    confirmed tweets.  The files are not touched and the log only grows. *)
Theorem delete_all_only_confirmed (tweets : list (gmap string json))
    (w : world) :
  exists new more,
    log (snd (delete_all destroy_ok tweets w)) = (log w ++ new)%list /\
    files (snd (delete_all destroy_ok tweets w)) = files w /\
    ids (confirmed tweets (stdin w)) = (destroyed new ++ more)%list.
Proof. apply delete_all_prefix. Qed.

Lemma delete_tweet_asked (tweet : gmap string json) (text : string)
    (id : json) (w : world) (reply : string) (rest : list string) :
  tweet !! "text" = Some (JStr text) ->
  tweet !! "id" = Some id ->
  destroy_ok id = true ->
  stdin w = reply :: rest ->
  delete_tweet destroy_ok tweet true w
  = (inl tt,
     World rest
       (log w ++ Asked ("Delete '" ++ text ++ " [yn]? ")%string
          :: (if affirmative reply
              then [print "Deleting tweet"; Destroyed id]
              else [print "Skipping this tweet"]))%list
       (files w)).
Proof.
  intros Htext Hid Hok Hin.
  unfold delete_tweet, io_bind, lift, getitem, str_add, request_confirmation,
    io_bind, input, destroy_status, io_bind, emit, ret, fail.
  rewrite Htext, Hin. cbn [stdin log files fst snd].
  rewrite append_assoc.
  destruct (affirmative reply); cbn [negb stdin log files].
  - rewrite Hid, Hok. cbn [stdin log files]. now rewrite <- !app_assoc.
  - now rewrite <- !app_assoc.
Qed.

(** X13: with a string [text] and an [id] in every tweet, a reply for each and
    an API that accepts the calls, the deletion loop returns; it asked
    about every tweet in turn, with the question [Delete '] followed by the
    text and [ [yn]? ], took one reply for each, and called
    [api.destroy_status] on the ids of exactly the confirmed tweets, in
    their order. *)
Theorem delete_all_complete (tweets : list (gmap string json)) (w : world) :
  Forall (fun t => is_Some (question_of t) /\
                   exists id, t !! "id" = Some id /\ destroy_ok id = true)
    tweets ->
  (length tweets <= length (stdin w))%nat ->
  exists w',
    delete_all destroy_ok tweets w = (inl tt, w') /\
    stdin w' = skipn (length tweets) (stdin w) /\
    files w' = files w /\
    destroyed (log w')
    = (destroyed (log w) ++ ids (confirmed tweets (stdin w)))%list /\
    asked (log w') = (asked (log w) ++ omap question_of tweets)%list.
Proof.
  intros Hall. revert w.
  induction Hall as [|t tweets [[q Hq] (id & Hid & Hok)] _ IH]; intros w Hlen.
  - exists w. cbn. rewrite !app_nil_r. repeat split.
  - destruct (stdin w) as [|reply rest] eqn:Hin; [cbn in Hlen; lia |].
    assert (Htext : exists text, t !! "text" = Some (JStr text) /\
                      q = ("Delete '" ++ text ++ " [yn]? ")%string).
    { unfold question_of in Hq.
      destruct (t !! "text") as [[| | |text| |]|]; try discriminate.
      exists text. split; [reflexivity | now injection Hq]. }
    destruct Htext as (text & Htext & ->).
    cbn [delete_all]. unfold io_bind.
    rewrite (delete_tweet_asked t text id w reply rest Htext Hid Hok Hin).
    match goal with |- context [delete_all _ _ ?w1] => set (w1' := w1) end.
    destruct (IH w1') as (w' & Hrun & Hstdin & Hfiles & Hdest & Hasked).
    { subst w1'. cbn in *. lia. }
    exists w'. rewrite Hrun, Hstdin, Hfiles, Hdest, Hasked. subst w1'.
    cbn [stdin log files length skipn omap list_omap]. rewrite Hq.
    rewrite confirmed_cons, destroyed_app, asked_app.
    unfold ids at 2. cbn [confirmed].
    repeat split; rewrite <- !app_assoc; f_equal;
      destruct (affirmative reply); cbn; rewrite ?Hid; reflexivity.
Qed.

End DeleteFacts.

Lemma delete_all_complete_witness :
  exists w',
    delete_all (fun _ => true)
      [sample_entry 1 ["http://dead.example"] true;
       sample_entry 2 ["http://slow.example"] true;
       sample_entry 3 ["http://down.example"] true]
      (fresh ["yes"; "n"; "Y"; "left over"])
    = (inl tt, w') /\
    stdin w' = ["left over"] /\
    files w' = ∅ /\
    destroyed (log w') = [JNum 1; JNum 3] /\
    asked (log w')
    = ["Delete 'check this http://x [yn]? ";
       "Delete 'check this http://x [yn]? ";
       "Delete 'check this http://x [yn]? "].
Proof.
  apply (delete_all_complete (fun _ => true)
           [sample_entry 1 ["http://dead.example"] true;
            sample_entry 2 ["http://slow.example"] true;
            sample_entry 3 ["http://down.example"] true]
           (fresh ["yes"; "n"; "Y"; "left over"])).
  - repeat (apply List.Forall_cons;
              [split; [eexists; reflexivity | eexists; split; reflexivity] |]).
    apply List.Forall_nil.
  - cbn. lia.
Defined.

(** A reply that is not understood is a no: the tweet is kept. *)
Example delete_tweet_skips :
  delete_tweet (fun _ => true) (sample_entry 1 ["http://dead.example"] true)
    true (fresh ["yeah"])
  = (inl tt,
     World [] [Asked "Delete 'check this http://x [yn]? ";
               print "Skipping this tweet"] ∅).
Proof. reflexivity. Qed.

(** Without [interactive] nothing is asked. *)
Example delete_tweet_unattended :
  delete_tweet (fun _ => true) (sample_entry 1 ["http://dead.example"] true)
    false (fresh [])
  = (inl tt, World [] [print "Deleting tweet"; Destroyed (JNum 1)] ∅).
Proof. reflexivity. Qed.

(** ** Configuration *)

Section FilesFacts.

Variable loads : string -> option json.
Variable decode_error : string -> string.
Variable dumps : json -> string.
Variable write_error : string -> option string.
Variable lib : tweepy.

(** X15: when the configuration file is missing or is not JSON, [read_config]
    prints its message and returns [None], and [__main__] goes on:
    [authenticate] subscripts [None] and raises [TypeError].  The feed is
    not read and no file is written. *)
Theorem main_without_config (configfile backupfile : string)
    (statuses : list (gmap string json)) (w : world) :
  files w !! backupfile = None ->
  (files w !! configfile = None \/
   exists lines,
     files w !! configfile = Some lines /\
     loads (String.concat EmptyString lines) = None) ->
  exists text,
    read_config loads decode_error configfile w
    = (inl JNull, World (stdin w) (log w ++ [print text])%list (files w)) /\
    main_backup loads decode_error dumps write_error lib configfile backupfile
      statuses w
    = (inr (Python TypeError),
       World (stdin w) (log w ++ [print text])%list (files w)).
Proof.
  intros Hbackup Hconfig. unfold main_backup, io_bind at 1 2 3.
  rewrite Hbackup. unfold read_config.
  destruct Hconfig as [Hnone|(lines & Hlines & Hbad)].
  - rewrite Hnone. eexists. split; reflexivity.
  - rewrite Hlines, Hbad. eexists. split; reflexivity.
Qed.

End FilesFacts.

Lemma main_without_config_witness :
  exists text,
    read_config json_loads (fun _ => "Expecting value") "config.json"
      (fresh [])
    = (inl JNull, World [] ([] ++ [print text])%list ∅) /\
    main_backup json_loads (fun _ => "Expecting value") (fun _ => "{}")
      (fun _ => None) tweepy_ok "config.json" "tweet_dump.json"
      [sample_post 1 "hello" false []] (fresh [])
    = (inr (Python TypeError), World [] ([] ++ [print text])%list ∅).
Proof.
  apply (main_without_config json_loads (fun _ => "Expecting value")
           (fun _ => "{}") (fun _ => None) tweepy_ok "config.json" "tweet_dump.json"
           [sample_post 1 "hello" false []] (fresh [])).
  - reflexivity.
  - left. reflexivity.
Defined.

(** A configuration of the right shape whose consumer key is not ASCII:
    [tweepy.OAuthHandler] raises before the account is looked at. *)
Example authenticate_key_not_ascii :
  authenticate tweepy_ascii
    (JObj (<["api" := JObj (<["key" := JStr "kÃ©"]> {[ "secret" := JStr "s" ]})]>
             {[ "account" := JNull ]}))
  = Raise UnicodeEncodeError.
Proof. reflexivity. Qed.

(** Whatever [tweepy.API] raises, the [except TweepError] clause turns it
    into [NameError]. *)
Example authenticate_api_raises (e : exn) :
  authenticate
    (Tweepy (fun _ _ => Ok tt) (fun _ _ => Ok tt) (fun _ => Raise e))
    (JObj (<["api" := JObj (<["key" := JStr "k"]> {[ "secret" := JStr "s" ]})]>
             {[ "account" :=
                  JObj (<["token" := JStr "t"]> {[ "secret" := JStr "u" ]}) ]}))
  = Raise NameError.
Proof. reflexivity. Qed.

(** ** The backup of the feed *)

Lemma multiples_step (n : nat) :
  (((S n + 9) / 10) = ((n + 9) / 10) + (if n mod 10 =? 0 then 1 else 0))%nat.
Proof.
  pose proof (Nat.div_mod_eq n 10) as Hn.
  pose proof (Nat.mod_upper_bound n 10 ltac:(lia)) as Hlt.
  destruct (Nat.eqb_spec (n mod 10) 0) as [H0|Hne].
  - rewrite <- (Nat.div_unique (S n + 9) 10 (n / 10 + 1) 0) by lia.
    rewrite <- (Nat.div_unique (n + 9) 10 (n / 10) 9) by lia. lia.
  - rewrite <- (Nat.div_unique (S n + 9) 10 (n / 10 + 1) (n mod 10)) by lia.
    rewrite <- (Nat.div_unique (n + 9) 10 (n / 10 + 1) (n mod 10 - 1)) by lia.
    lia.
Qed.

Section BackupFacts.

Variable loads : string -> option json.
Variable dumps : json -> string.
Variable write_error : string -> option string.

Lemma get_tweets_loop_quiet (file_name : string)
    (statuses : list (gmap string json)) :
  file_name <> EmptyString ->
  write_error file_name = None ->
  forall n w,
    get_tweets_loop dumps write_error statuses n (Some file_name) false w
    = (inl tt,
       World (stdin w)
         (log w ++ repeat (print_end ".")
                     ((n + length statuses + 9) / 10 - (n + 9) / 10))%list
         (match statuses with
          | [] => files w
          | _ :: _ =>
              <[file_name := (default [] (files w !! file_name)
                                ++ map (fun s => (dumps (JObj s) ++ newline)%string) statuses)%list]> (files w)
          end)).
Proof.
  intros Hname Hwrite.
  induction statuses as [|status statuses IH]; intros n w.
  - cbn. replace (n + 0 + 9)%nat with (n + 9)%nat by lia.
    rewrite Nat.sub_diag. cbn. rewrite app_nil_r. now destruct w.
  - cbn [get_tweets_loop]. unfold io_bind at 1.
    unfold get_tweet, io_bind, dump_to_file, emit, ret.
    apply String.eqb_neq in Hname. rewrite Hname, Hwrite.
    cbn [stdin log files].
    assert (Hdots : ((n + length (status :: statuses) + 9) / 10 - (n + 9) / 10
                     = (if n mod 10 =? 0 then 1 else 0)
                       + ((S n + length statuses + 9) / 10 - (S n + 9) / 10))%nat).
    { cbn [length].
      replace (n + S (length statuses) + 9)%nat
        with (S n + length statuses + 9)%nat by lia.
      rewrite (multiples_step n).
      assert ((S n + 9) / 10 <= (S n + length statuses + 9) / 10)%nat
        by (apply Nat.Div0.div_le_mono; lia).
      rewrite (multiples_step n) in H.
      destruct (n mod 10 =? 0)%nat; lia. }
    rewrite Hdots. clear Hdots.
    assert (Hfiles : forall (fs : gmap string (list string)),
               match statuses with
               | [] => <[file_name := (default [] (fs !! file_name)
                           ++ [(dumps (JObj status) ++ newline)%string])%list]> fs
               | _ :: _ =>
                   <[file_name :=
                       (default []
                          (<[file_name := (default [] (fs !! file_name)
                              ++ [(dumps (JObj status) ++ newline)%string])%list]>
                             fs !! file_name)
                          ++ map (fun s => (dumps (JObj s) ++ newline)%string) statuses)%list]>
                     (<[file_name := (default [] (fs !! file_name)
                          ++ [(dumps (JObj status) ++ newline)%string])%list]> fs)
               end
               = <[file_name := (default [] (fs !! file_name)
                                   ++ map (fun s => (dumps (JObj s) ++ newline)%string) (status :: statuses))%list]> fs).
    { intros fs. destruct statuses as [|s statuses]; [reflexivity |].
      rewrite lookup_insert_eq, insert_insert_eq. cbn [from_option id].
      cbn [map]. now rewrite <- app_assoc. }
    destruct (n mod 10 =? 0)%nat; cbn [stdin log files];
      rewrite IH; cbn [stdin log files]; rewrite Hfiles;
      cbn [Nat.add repeat]; rewrite <- ?app_assoc; reflexivity.
Qed.

Lemma get_tweets_quiet (file_name : string)
    (statuses : list (gmap string json)) (w : world) :
  file_name <> EmptyString ->
  write_error file_name = None ->
  get_tweets dumps write_error statuses (Some file_name) false w
  = (inl tt,
     World (stdin w)
       (log w ++ [print_end "Reading tweets"]
          ++ repeat (print_end ".") ((length statuses + 9) / 10)
          ++ [print "done."])%list
       (match statuses with
        | [] => files w
        | _ :: _ =>
            <[file_name :=
                (default [] (files w !! file_name)
                   ++ map (fun status => (dumps (JObj status) ++ newline)%string)
                        statuses)%list]> (files w)
        end)).
Proof.
  intros Hname Hwrite. unfold get_tweets, io_bind, emit.
  rewrite (get_tweets_loop_quiet file_name statuses Hname Hwrite).
  cbn [stdin log files Nat.add].
  replace ((length statuses + 9) / 10 - 9 / 10)%nat
    with ((length statuses + 9) / 10)%nat by (cbn; lia).
  rewrite <- !app_assoc. now destruct statuses.
Qed.

(** X16: [get_tweets] with a dump file and without echo adds to the end of the
    dump file one line for each status, in the order of the feed, and
    keeps the lines the file had; without a status, no file is touched.  It
    prints [Reading tweets], a dot for every tenth status beginning with the
    first, and [done.]. *)
Theorem get_tweets_appends (file_name : string)
    (statuses : list (gmap string json)) (w : world) :
  file_name <> EmptyString ->
  write_error file_name = None ->
  get_tweets dumps write_error statuses (Some file_name) false w
  = (inl tt,
     World (stdin w)
       (log w ++ [print_end "Reading tweets"]
          ++ repeat (print_end ".") ((length statuses + 9) / 10)
          ++ [print "done."])%list
       (match statuses with
        | [] => files w
        | _ :: _ =>
            <[file_name :=
                (default [] (files w !! file_name)
                   ++ map (fun status => (dumps (JObj status) ++ newline)%string)
                        statuses)%list]> (files w)
        end)).
Proof. apply get_tweets_quiet. Qed.

Lemma load_lines_all (lines : list string) (parsed : list json) :
  Forall2 (fun line tweet => loads line = Some tweet) lines parsed ->
  forall tweets,
    load_lines loads lines tweets = ((tweets ++ parsed)%list, []).
Proof.
  induction 1 as [|line tweet lines parsed Hline _ IH]; intros tweets.
  - cbn. now rewrite app_nil_r.
  - cbn [load_lines]. rewrite Hline, IH. now rewrite <- app_assoc.
Qed.

Lemma append_nil_r (a : string) : (a ++ EmptyString)%string = a.
Proof.
  induction a as [|x a IH]; [reflexivity |].
  change (String x (a ++ EmptyString)%string = String x a). now rewrite IH.
Qed.

Lemma concat_cons (piece : string) (pieces : list string) :
  String.concat EmptyString (piece :: pieces)
  = (piece ++ String.concat EmptyString pieces)%string.
Proof.
  destruct pieces as [|p pieces]; [| reflexivity].
  cbn [String.concat]. now rewrite append_nil_r.
Qed.

Lemma concat_app (a b : list string) :
  String.concat EmptyString (a ++ b)
  = (String.concat EmptyString a ++ String.concat EmptyString b)%string.
Proof.
  induction a as [|x a IH]; [reflexivity |].
  change ((x :: a) ++ b)%list with (x :: (a ++ b))%list.
  now rewrite !concat_cons, IH, append_assoc.
Qed.

(** A text without a line break, followed by [\n], is read as one line. *)
Lemma split_lines_line (t rest : string) :
  no_break t = true ->
  forall line,
    split_lines (t ++ newline ++ rest) line false
    = (line ++ t ++ newline)%string :: split_lines rest EmptyString false.
Proof.
  induction t as [|c t IH]; intros Ht line; [reflexivity |].
  cbn [no_break] in Ht.
  apply andb_prop in Ht as [Hc Ht]. apply andb_prop in Hc as [Hn Hr].
  apply negb_true_iff in Hn, Hr.
  change (String c t ++ newline ++ rest)%string
    with (String c (t ++ newline ++ rest)%string).
  cbn [split_lines]. rewrite Hn, Hr, (IH Ht), append_assoc. reflexivity.
Qed.

(** Reading goes on with a new line after a text that ends with [\n]. *)
Lemma split_lines_app (a b : string) :
  forall line after_cr,
    (after_cr = true -> line = EmptyString) ->
    a <> EmptyString ->
    ends_lines a = true ->
    split_lines (a ++ b) line after_cr
    = (split_lines a line after_cr ++ split_lines b EmptyString false)%list.
Proof.
  induction a as [|c a IH]; intros line after_cr Hcr Hne Ha; [congruence |].
  change (String c a ++ b)%string with (String c (a ++ b)%string).
  destruct a as [|d a].
  - cbn [ends_lines] in Ha.
    change (EmptyString ++ b)%string with b.
    cbn [split_lines]. rewrite Ha.
    destruct after_cr; [| reflexivity].
    rewrite (Hcr eq_refl). reflexivity.
  - assert (Ha' : ends_lines (String d a) = true) by exact Ha.
    assert (Hne' : String d a <> EmptyString) by discriminate.
    cbn [split_lines].
    destruct (Ascii.eqb c (ascii_of_nat 10)).
    + destruct after_cr.
      * apply IH; [discriminate | assumption | assumption].
      * rewrite IH by (try discriminate; assumption). reflexivity.
    + destruct (Ascii.eqb c (ascii_of_nat 13)).
      * rewrite IH by (try reflexivity; assumption). reflexivity.
      * apply IH; [discriminate | assumption | assumption].
Qed.

Lemma split_lines_written {A : Type} (g : A -> string) (l : list A) :
  Forall (fun x => no_break (g x) = true) l ->
  split_lines
    (String.concat EmptyString (map (fun x => (g x ++ newline)%string) l))
    EmptyString false
  = map (fun x => (g x ++ newline)%string) l.
Proof.
  induction 1 as [|x l Hx _ IH]; [reflexivity |].
  cbn [map]. rewrite concat_cons, append_assoc.
  rewrite (split_lines_line (g x) _ Hx). now rewrite IH.
Qed.

(** The lines of a file after lines were appended to it: when the old text
    is empty or ends with a line break, the old lines followed by the new
    ones. *)
Lemma file_lines_appended {A : Type} (g : A -> string) (old : list string)
    (l : list A) :
  ends_lines (String.concat EmptyString old) = true ->
  Forall (fun x => no_break (g x) = true) l ->
  file_lines (old ++ map (fun x => (g x ++ newline)%string) l)
  = (file_lines old ++ map (fun x => (g x ++ newline)%string) l)%list.
Proof.
  intros Hold Hl. unfold file_lines. rewrite concat_app.
  destruct (String.concat EmptyString old) as [|c text] eqn:Htext.
  - change (EmptyString ++ ?s)%string with s. cbn [split_lines String.eqb app].
    now apply split_lines_written.
  - rewrite split_lines_app; [| discriminate | discriminate | exact Hold].
    now rewrite split_lines_written.
Qed.

(** X17: the backup read back: when the text the dump file had before is
    empty or ends with a line break and [json.loads] reads its lines, and
    [json.dumps] writes every status without a line break as a text that
    [json.loads] reads back, then after [get_tweets] the loader returns the
    tweets of the old lines followed by the statuses of the feed, and
    prints nothing.  A dump file that was kept makes its tweets come
    first. *)
Theorem backup_read_back (file_name : string)
    (status : gmap string json) (statuses : list (gmap string json))
    (old : list json) (w : world) :
  file_name <> EmptyString ->
  write_error file_name = None ->
  ends_lines (String.concat EmptyString (default [] (files w !! file_name)))
  = true ->
  Forall2 (fun line tweet => loads line = Some tweet)
    (file_lines (default [] (files w !! file_name))) old ->
  Forall (fun s => no_break (dumps (JObj s)) = true /\
                   loads (dumps (JObj s) ++ newline)%string = Some (JObj s))
    (status :: statuses) ->
  load_backup loads file_name
    (snd (get_tweets dumps write_error (status :: statuses)
            (Some file_name) false w))
  = ((old ++ map JObj (status :: statuses))%list, []).
Proof.
  intros Hname Hwrite Hends Hold Hnew.
  rewrite (get_tweets_quiet file_name (status :: statuses) w Hname Hwrite).
  unfold load_backup, load_tweets_from_file. cbn [snd files].
  rewrite lookup_insert_eq. cbn [fmap option_fmap option_map].
  rewrite (file_lines_appended (fun s => dumps (JObj s)));
    [| exact Hends | exact (Forall_impl _ _ _ Hnew (fun s H => proj1 H))].
  apply (load_lines_all _ (old ++ map JObj (status :: statuses))%list).
  apply Forall2_app; [exact Hold |].
  clear -Hnew. induction Hnew as [|s l [_ Hs] _ IH]; [constructor |].
  cbn [map]. constructor; assumption.
Qed.

End BackupFacts.

Lemma get_tweets_appends_witness :
  get_tweets (fun _ => "{}") (fun _ => None)
    (repeat (∅ : gmap string json) 11) (Some "tweet_dump.json") false
    (World [] [] {[ "tweet_dump.json" := ["old"] ]})
  = (inl tt,
     World []
       [print_end "Reading tweets"; print_end "."; print_end ".";
        print "done."]
       {[ "tweet_dump.json" := "old" :: repeat ("{}" ++ newline)%string 11 ]}).
Proof.
  exact (get_tweets_appends (fun _ => "{}") (fun _ => None) "tweet_dump.json"
           (repeat (∅ : gmap string json) 11)
           (World [] [] {[ "tweet_dump.json" := ["old"] ]})
           ltac:(discriminate) eq_refl).
Defined.

(** Eleven statuses give two dots. *)
Example get_tweets_dots :
  log (snd (get_tweets (fun _ => "{}") (fun _ => None)
              (repeat (∅ : gmap string json) 11) None false (fresh [])))
  = [print_end "Reading tweets"; print_end "."; print_end "."; print "done."].
Proof. reflexivity. Qed.

Lemma backup_read_back_witness :
  load_backup json_loads "tweet_dump.json"
    (snd (get_tweets (fun _ => dq "{'id':1,'text':'one'}") (fun _ => None)
            [<["id" := JNum 1]> (<["text" := JStr "one"]> ∅)]
            (Some "tweet_dump.json") false
            (World [] []
               {[ "tweet_dump.json" := [("[]" ++ newline)%string] ]})))
  = ([JArr []; JObj (<["id" := JNum 1]> (<["text" := JStr "one"]> ∅))], []).
Proof.
  apply (backup_read_back json_loads (fun _ => dq "{'id':1,'text':'one'}")
           (fun _ => None) "tweet_dump.json"
           (<["id" := JNum 1]> (<["text" := JStr "one"]> ∅)) [] [JArr []]
           (World [] [] {[ "tweet_dump.json" := [("[]" ++ newline)%string] ]})).
  - discriminate.
  - reflexivity.
  - reflexivity.
  - repeat constructor.
  - repeat constructor.
Defined.

(** An old dump file whose last line has no line break: the first status is
    written on that line, and the loader reads a line that is not JSON. *)
Example backup_glued :
  load_backup json_loads "tweet_dump.json"
    (snd (get_tweets (fun _ => dq "{'id':1,'text':'one'}") (fun _ => None)
            [<["id" := JNum 1]> (<["text" := JStr "one"]> ∅)]
            (Some "tweet_dump.json") false
            (World [] [] {[ "tweet_dump.json" := ["[]"] ]})))
  = ([], [CannotParseJSONFile]).
Proof. reflexivity. Qed.

(** ** From the loaded tweets to the deletions *)

Lemma bad_tweets_inv_bad (out : list (result (gmap string json))) :
  forall selected,
    bad_tweets out = Ok selected ->
    forall t, In t selected -> In (Ok t) out /\ is_bad t = true.
Proof.
  induction out as [|r out IH]; intros selected H t Hin.
  - cbn in H. injection H as <-. destruct Hin.
  - cbn [bad_tweets] in H. destruct r as [t0|e]; [|discriminate].
    cbn [bind] in H. destruct (getitem t0 "bad") as [b|e] eqn:Hb; [|discriminate].
    cbn [bind] in H. destruct (bad_tweets out) as [sel|e]; [|discriminate].
    cbn [bind] in H. injection H as <-.
    assert (Hrest : In t sel -> In (Ok t) (Ok t0 :: out) /\ is_bad t = true).
    { intros Hsel. destruct (IH sel eq_refl t Hsel). split; [now right | assumption]. }
    destruct (truthy b) eqn:Htruthy; [| now apply Hrest].
    destruct Hin as [->|Hin]; [| now apply Hrest].
    split; [now left |]. unfold is_bad. unfold getitem in Hb.
    destruct (t !! "bad"); [| discriminate]. now injection Hb as ->.
Qed.

(** The loop marks an entry only for a url whose request was classified
    dead. *)
Lemma check_loop_marks (requests_head : string -> outcome) (urls : list json) :
  forall tweet probed tweet' probed',
    is_bad tweet = false ->
    check_loop requests_head urls tweet probed = Ok (tweet', probed') ->
    is_bad tweet' = true ->
    exists u, In (JStr u) urls /\ marks_bad (requests_head u) = true.
Proof.
  induction urls as [|url urls IH]; intros tweet probed tweet' probed' Hb H Hb'.
  - cbn in H. injection H as <- _. congruence.
  - cbn [check_loop] in H. destruct url as [| | |u| |]; try discriminate.
    destruct (escapes (requests_head u)); [discriminate |].
    destruct (marks_bad (requests_head u)) eqn:Hu.
    + exists u. split; [now left | exact Hu].
    + destruct (getitem tweet "bad") as [b|] eqn:Hbad; [|discriminate].
      cbn [bind] in H.
      assert (Hfalse : truthy b = false).
      { unfold is_bad in Hb. unfold getitem in Hbad.
        destruct (tweet !! "bad"); [| discriminate]. now injection Hbad as <-. }
      rewrite Hfalse in H.
      destruct (IH tweet _ tweet' probed' Hb H Hb') as (v & Hin & Hv).
      exists v. split; [now right | exact Hv].
Qed.

Lemma check_urls_marks (requests_head : string -> outcome)
    (entry entry' : gmap string json) (xs : list json) :
  entry !! "urls" = Some (JArr xs) ->
  entry !! "bad" = Some (JBool false) ->
  check_urls_in_tweet requests_head entry = Ok entry' ->
  is_bad entry' = true ->
  exists u, In (JStr u) xs /\ marks_bad (requests_head u) = true.
Proof.
  intros Hurls Hbad H Hb'.
  unfold check_urls_in_tweet, check_urls_in_tweet_trace, getitem in H.
  rewrite Hurls in H. cbn [bind iter] in H.
  destruct (check_loop requests_head xs entry []) as [[t probed]|] eqn:Hl;
    [|discriminate].
  cbn [bind fst] in H. injection H as <-.
  apply (check_loop_marks requests_head xs entry [] t probed); try assumption.
  unfold is_bad. now rewrite Hbad.
Qed.

(** Every entry of the pipeline comes from a tweet that passes both
    filters. *)
Lemma filter_tweets_with_urls_origin (tweets : list (gmap string json)) :
  forall entries,
    filter_tweets_with_urls tweets = Ok entries ->
    forall entry, In entry entries ->
    exists tweet,
      In tweet tweets /\ with_url tweet = true /\ make_entry tweet = Ok entry.
Proof.
  induction tweets as [|t tweets IH]; intros entries H entry Hin.
  - cbn in H. injection H as <-. destruct Hin.
  - cbn [filter_tweets_with_urls] in H.
    destruct (contains_url t) as [[|]|] eqn:Hc; cbn [bind] in H;
      [| | discriminate].
    + destruct (make_entry t) as [e|] eqn:Hm; [|discriminate].
      cbn [bind] in H.
      destruct (filter_tweets_with_urls tweets) as [rest|]; [|discriminate].
      cbn [bind] in H. injection H as <-.
      destruct Hin as [<-|Hin].
      * exists t. repeat split; [now left | | exact Hm].
        unfold with_url. now rewrite Hc.
      * destruct (IH rest eq_refl entry Hin) as (tweet & Ht & Hw & Hm').
        exists tweet. repeat split; [now right | assumption | assumption].
    + destruct (IH entries H entry Hin) as (tweet & Ht & Hw & Hm').
      exists tweet. repeat split; [now right | assumption | assumption].
Qed.

Lemma pipeline_origin (tweets entries : list (gmap string json))
    (entry : gmap string json) :
  pipeline tweets = Ok entries ->
  In entry entries ->
  exists tweet,
    In tweet tweets /\ passes tweet = true /\ make_entry tweet = Ok entry.
Proof.
  unfold pipeline. intros H Hin.
  destruct (filter_retweets tweets) as [kept|] eqn:Hk; [|discriminate].
  cbn [bind] in H. apply filter_retweets_inv in Hk as [_ ->].
  destruct (filter_tweets_with_urls_origin _ entries H entry Hin)
    as (tweet & Ht & Hw & Hm).
  apply filter_In in Ht as [Ht Hnr].
  exists tweet. repeat split; [assumption | | assumption].
  rewrite passes_both, Hnr, Hw. reflexivity.
Qed.

Lemma confirmed_In (tweets : list (gmap string json)) :
  forall replies id,
    In id (ids (confirmed tweets replies)) ->
    exists tweet, In tweet tweets /\ tweet !! "id" = Some id.
Proof.
  induction tweets as [|t tweets IH]; intros replies id Hin.
  - destruct Hin.
  - destruct replies as [|reply rest]; [destruct Hin |].
    unfold ids in Hin. cbn [confirmed] in Hin.
    destruct (affirmative reply).
    + cbn [omap list_omap] in Hin.
      destruct (t !! "id") as [i|] eqn:Hi.
      * destruct Hin as [<-|Hin]; [exists t; split; [now left | exact Hi] |].
        destruct (IH rest id Hin) as (tweet & Ht & Hid).
        exists tweet. split; [now right | exact Hid].
      * destruct (IH rest id Hin) as (tweet & Ht & Hid).
        exists tweet. split; [now right | exact Hid].
    + destruct (IH rest id Hin) as (tweet & Ht & Hid).
      exists tweet. split; [now right | exact Hid].
Qed.

(** X18: what [__main__] deletes: whatever the workers, the replies and the API
    do, every id passed to [api.destroy_status] by the deletion loop is the
    id of a loaded tweet that is no retweet, contains urls, and of which one
    [expanded_url] was requested and classified dead. *)
Theorem main_deletes_only_dead (requests_head : string -> outcome)
    (processes : argument) (destroy_ok : json -> bool)
    (tweets selected : list (gmap string json)) (replies : list string)
    (id : json) :
  main_scan requests_head processes tweets selected ->
  In id (destroyed (log (snd (delete_all destroy_ok selected (fresh replies))))) ->
  exists tweet entry xs u,
    In tweet tweets /\
    tweet !! "id" = Some id /\
    is_retweet tweet = Ok false /\
    contains_url tweet = Ok true /\
    make_entry tweet = Ok entry /\
    entry !! "urls" = Some (JArr xs) /\
    In (JStr u) xs /\
    marks_bad (requests_head u) = true.
Proof.
  intros (workers & entries & out & _ & Hpipe & Hrun & Hsel) Hid.
  destruct (delete_all_prefix destroy_ok selected (fresh replies))
    as (new & more & Hlog & _ & Hids).
  rewrite Hlog in Hid. cbn [fresh log app] in Hid.
  assert (Hin : In id (ids (confirmed selected replies))).
  { cbn [fresh stdin] in Hids. rewrite Hids. apply in_or_app. now left. }
  destruct (confirmed_In selected replies id Hin) as (t & Ht & Htid).
  destruct (bad_tweets_inv_bad out selected Hsel t Ht) as [Hout Hbad].
  apply imap_unordered_permutation in Hrun.
  apply (Permutation_in _ Hrun) in Hout.
  apply in_map_iff in Hout as (entry & Hcheck & Hentry).
  destruct (pipeline_origin tweets entries entry Hpipe Hentry)
    as (tweet & Htweet & Hpass & Hmake).
  destruct (make_entry_inv tweet entry Hmake) as [xs Hshape].
  assert (Hurls : entry !! "urls" = Some (JArr xs)).
  { rewrite Hshape. rewrite lookup_insert_ne by discriminate.
    apply lookup_insert_eq. }
  assert (Hfalse : entry !! "bad" = Some (JBool false)).
  { rewrite Hshape. apply lookup_insert_eq. }
  destruct (check_urls_marks requests_head entry t xs Hurls Hfalse Hcheck Hbad)
    as (u & Hu & Hdead).
  exists tweet, entry, xs, u.
  assert (Heid : entry !! "id" = tweet !! "id").
  { rewrite Hshape. rewrite !lookup_insert_ne by discriminate.
    rewrite lookup_kept. reflexivity. }
  rewrite <- Heid.
  rewrite <- (check_urls_same_keys requests_head entry t Hcheck "id")
    by discriminate.
  unfold passes in Hpass.
  destruct (is_retweet tweet) as [[|]|]; try discriminate.
  destruct (contains_url tweet) as [[|]|]; try discriminate.
  repeat split; assumption.
Qed.

Lemma main_deletes_only_dead_witness :
  exists tweet entry xs u,
    In tweet [sample_post 1 "RT @a hi" false ["http://dead.example"];
              sample_post 2 "check this http://x" false ["http://dead.example"]] /\
    tweet !! "id" = Some (JNum 2) /\
    is_retweet tweet = Ok false /\
    contains_url tweet = Ok true /\
    make_entry tweet = Ok entry /\
    entry !! "urls" = Some (JArr xs) /\
    In (JStr u) xs /\
    marks_bad (sample_net u) = true.
Proof.
  apply (main_deletes_only_dead sample_net (args_processes None) (fun _ => true)
           [sample_post 1 "RT @a hi" false ["http://dead.example"];
            sample_post 2 "check this http://x" false ["http://dead.example"]]
           [sample_entry 2 ["http://dead.example"] true] ["y"] (JNum 2)).
  - exists 4%nat, [sample_entry 2 ["http://dead.example"] false],
      [Ok (sample_entry 2 ["http://dead.example"] true)].
    split; [reflexivity |]. split; [reflexivity |]. split; [| reflexivity].
    apply (imap_unordered_exists (check_urls_in_tweet sample_net) 4
             [sample_entry 2 ["http://dead.example"] false]).
    lia.
  - cbn. now left.
Defined.

Lemma filter_tweets_with_urls_entries_witness :
  exists entries,
    filter_tweets_with_urls
      [sample_post 1 "no link" false [];
       sample_post 2 "two links" false ["http://a.example"; "http://b.example"]]
    = Ok entries /\
    Forall2
      (fun tweet entry =>
         exists x xs,
           expanded_urls tweet = Some (x :: xs) /\
           entry !! "id" = tweet !! "id" /\
           entry !! "created_at" = tweet !! "created_at" /\
           entry !! "text" = tweet !! "text" /\
           entry !! "urls" = Some (JArr (x :: xs)) /\
           entry !! "bad" = Some (JBool false) /\
           forall k, k ∉ ["id"; "created_at"; "text"; "urls"; "bad"] ->
                     entry !! k = None)
      (List.filter has_urls
         [sample_post 1 "no link" false [];
          sample_post 2 "two links" false
            ["http://a.example"; "http://b.example"]])
      entries.
Proof.
  apply filter_tweets_with_urls_entries.
  repeat (apply List.Forall_cons; [eexists; reflexivity |]).
  apply List.Forall_nil.
Defined.

(** The urls of an entry are in the order of [entities.urls]; keys of the
    tweet other than [id], [created_at] and [text] are dropped. *)
Example filter_tweets_with_urls_sample :
  filter_tweets_with_urls
    [sample_post 1 "no link" false [];
     sample_post 2 "check this http://x" false
       ["http://a.example"; "http://b.example"]]
  = Ok [sample_entry 2 ["http://a.example"; "http://b.example"] false].
Proof. reflexivity. Qed.

(** ** Echo, and the question about an old backup *)

Section EchoFacts.

Variable dumps : json -> string.
Variable write_error : string -> option string.

Lemma get_tweets_loop_echo (statuses : list (gmap string json)) :
  Forall (fun status => is_Some (echo_of status)) statuses ->
  forall n w,
    get_tweets_loop dumps write_error statuses n None true w
    = (inl tt,
       World (stdin w) (log w ++ omap echo_of statuses)%list (files w)).
Proof.
  induction 1 as [|status statuses [line Hline] _ IH]; intros n w.
  - cbn. rewrite app_nil_r. now destruct w.
  - cbn [get_tweets_loop omap list_omap]. rewrite Hline.
    unfold io_bind at 1. unfold echo_of in Hline.
    unfold get_tweet, io_bind, lift, getitem, str_add, emit, ret.
    destruct (status !! "created_at") as [[| | |created_at| |]|];
      try discriminate.
    destruct (status !! "text") as [[| | |text| |]|]; try discriminate.
    injection Hline as <-. cbn [stdin log files].
    rewrite IH. cbn [stdin log files]. now rewrite <- app_assoc.
Qed.

(** X19: with echo and without a dump file, [get_tweets] prints for every
    status its date, a colon, the text on the next line and an empty line,
    and nothing else: no [Reading tweets], no dots, no [done.]; it reads no
    input and touches no file. *)
Theorem get_tweets_echoes (statuses : list (gmap string json)) (w : world) :
  Forall (fun status => is_Some (echo_of status)) statuses ->
  get_tweets dumps write_error statuses None true w
  = (inl tt, World (stdin w) (log w ++ omap echo_of statuses)%list (files w)).
Proof.
  intros Hall. unfold get_tweets, io_bind, ret.
  now rewrite (get_tweets_loop_echo statuses Hall).
Qed.

End EchoFacts.

Lemma get_tweets_echoes_witness :
  get_tweets (fun _ => "{}") (fun _ => None)
    [sample_post 1 "hello" false []] None true (fresh [])
  = (inl tt,
     World []
       [Printed ("Mon Sep 24 03:35:21 +0000 2012:" ++ newline ++ "hello"
                   ++ newline ++ newline)%string]
       ∅).
Proof.
  apply (get_tweets_echoes (fun _ => "{}") (fun _ => None)
           [sample_post 1 "hello" false []] (fresh [])).
  apply List.Forall_cons; [eexists; reflexivity | apply List.Forall_nil].
Defined.

(** A status without [created_at] stops the echo with [KeyError]; its
    line is already in the dump file. *)
Example get_tweets_echo_missing_date :
  get_tweets (fun _ => "{}") (fun _ => None)
    [delete "created_at" (sample_post 1 "hello" false [])]
    (Some "tweet_dump.json") true (fresh [])
  = (inr (Python (KeyError "created_at")),
     World [] [] {[ "tweet_dump.json" := [("{}" ++ newline)%string] ]}).
Proof. reflexivity. Qed.

Lemma asked_dots (k : nat) : asked (repeat (print_end ".") k) = [].
Proof. induction k as [|k IH]; [reflexivity | exact IH]. Qed.

Section MainBackupFacts.

Variable loads : string -> option json.
Variable decode_error : string -> string.
Variable dumps : json -> string.
Variable write_error : string -> option string.
Variable lib : tweepy.

(** X20: when the backup file exists, [__main__] asks once whether to delete
    it.  After yes the file holds the lines of this run only; after any
    other reply the lines of this run follow the old ones, which stay. *)
Theorem main_backup_existing (configfile backupfile : string)
    (status : gmap string json) (statuses : list (gmap string json))
    (w : world) (reply : string) (rest : list string)
    (old lines : list string) (config : json) (api : credentials) :
  backupfile <> EmptyString ->
  configfile <> backupfile ->
  write_error backupfile = None ->
  files w !! backupfile = Some old ->
  stdin w = reply :: rest ->
  files w !! configfile = Some lines ->
  loads (String.concat EmptyString lines) = Some config ->
  authenticate lib config = Ok api ->
  exists w',
    main_backup loads decode_error dumps write_error lib configfile backupfile
      (status :: statuses) w
    = (inl api, w') /\
    stdin w' = rest /\
    asked (log w')
    = (asked (log w) ++ ["Backup file exists, delete it [yn]? "])%list /\
    files w' !! backupfile
    = Some ((if affirmative reply then [] else old)
              ++ map (fun s => (dumps (JObj s) ++ newline)%string)
                   (status :: statuses))%list.
Proof.
  intros Hname Hne Hwrite Hold Hin Hconfig Hloads Hauth.
  unfold main_backup. unfold io_bind at 1 2 3 4. rewrite Hold.
  unfold request_confirmation, io_bind at 1 2, input. rewrite Hin.
  destruct (affirmative reply); unfold ret at 1; cbn [stdin log files];
    unfold read_config; cbn [files].
  - rewrite lookup_delete_ne by congruence. rewrite Hconfig, Hloads.
    unfold lift. rewrite Hauth. unfold ret at 1.
    rewrite (get_tweets_quiet dumps write_error backupfile (status :: statuses)
               _ Hname Hwrite).
    cbn [stdin log files]. eexists. split; [reflexivity |].
    cbn [stdin log files]. rewrite lookup_insert_eq, lookup_delete_eq.
    rewrite !asked_app, asked_dots. cbn. rewrite !app_nil_r. repeat split.
  - unfold ret at 1. cbn [stdin log files]. rewrite Hconfig, Hloads.
    unfold lift. rewrite Hauth. unfold ret at 1.
    rewrite (get_tweets_quiet dumps write_error backupfile (status :: statuses)
               _ Hname Hwrite).
    cbn [stdin log files]. eexists. split; [reflexivity |].
    cbn [stdin log files]. rewrite lookup_insert_eq, Hold.
    rewrite !asked_app, asked_dots. cbn. rewrite !app_nil_r. repeat split.
Qed.

End MainBackupFacts.

Lemma main_backup_existing_witness :
  exists w',
    main_backup json_loads (fun _ => "Expecting value") (fun _ => "{}")
      (fun _ => None) tweepy_ok "config.json" "tweet_dump.json" [∅]
      (World ["n"] []
         (<["config.json" :=
              [dq "{'api':{'key':'k','secret':'s'},";
               dq "'account':{'token':'t','secret':'u'}}"]]>
            {[ "tweet_dump.json" := ["old"] ]}))
    = (inl (Credentials (JStr "k") (JStr "s") (JStr "t") (JStr "u")), w') /\
    stdin w' = [] /\
    asked (log w') = ([] ++ ["Backup file exists, delete it [yn]? "])%list /\
    files w' !! "tweet_dump.json"
    = Some ((if affirmative "n" then [] else ["old"])
              ++ map (fun s : gmap string json => ("{}" ++ newline)%string) [∅])%list.
Proof.
  apply (main_backup_existing json_loads (fun _ => "Expecting value")
           (fun _ => "{}") (fun _ => None) tweepy_ok "config.json" "tweet_dump.json"
           ∅ []
           (World ["n"] []
              (<["config.json" :=
                   [dq "{'api':{'key':'k','secret':'s'},";
                    dq "'account':{'token':'t','secret':'u'}}"]]>
                 {[ "tweet_dump.json" := ["old"] ]}))
           "n" [] ["old"]
           [dq "{'api':{'key':'k','secret':'s'},";
            dq "'account':{'token':'t','secret':'u'}}"]
           (JObj (<["api" := JObj (<["key" := JStr "k"]> {[ "secret" := JStr "s" ]})]>
                    {[ "account" :=
                         JObj (<["token" := JStr "t"]> {[ "secret" := JStr "u" ]}) ]}))).
  - discriminate.
  - discriminate.
  - reflexivity.
  - reflexivity.
  - reflexivity.
  - reflexivity.
  - reflexivity.
  - reflexivity.
Defined.


(** ** The entries against the candidates of the specification *)

Lemma kept_keys_iff (k : string) :
  k ∈ kept_keys <-> k = "id" \/ k = "created_at" \/ k = "text".
Proof.
  unfold kept_keys. rewrite !elem_of_cons, elem_of_nil. tauto.
Qed.

Lemma toCandidate_lookup (post : gmap string json) (urls : list json)
    (k : string) :
  toCandidate post urls !! k
  = if decide (k ∈ kept_keys) then post !! k
    else if decide (k = "urls") then Some (JArr urls)
    else if decide (k = "bad") then Some (JBool false)
    else None.
Proof.
  unfold toCandidate.
  destruct (decide (k ∈ kept_keys)) as [Hin|Hout].
  - apply kept_keys_iff in Hin as [-> | [-> | ->]];
      destruct (post !! "id") eqn:Hid, (post !! "created_at") eqn:Hcr,
        (post !! "text") eqn:Htx;
      rewrite ?lookup_insert_eq, ?lookup_insert_ne by discriminate;
      rewrite ?lookup_insert_eq, ?lookup_insert_ne by discriminate;
      rewrite ?lookup_insert_eq, ?lookup_insert_ne by discriminate;
      rewrite ?lookup_empty; congruence.
  - rewrite kept_keys_iff in Hout.
    assert (k <> "id" /\ k <> "created_at" /\ k <> "text") as (H1 & H2 & H3)
      by tauto.
    destruct (post !! "id"), (post !! "created_at"), (post !! "text");
      rewrite ?lookup_insert_ne by congruence;
      (destruct (decide (k = "urls")) as [->|Hu];
       [now rewrite lookup_insert_eq |];
       rewrite lookup_insert_ne by congruence;
       destruct (decide (k = "bad")) as [->|Hb];
       [now rewrite lookup_insert_eq |];
       rewrite lookup_insert_ne by congruence; apply lookup_empty).
Qed.

(** The entry the loop makes of a tweet is the candidate of the
    specification. *)
Lemma make_entry_candidate (tweet : gmap string json) (xs : list json) :
  expanded_urls tweet = Some xs ->
  make_entry tweet = Ok (toCandidate tweet xs).
Proof.
  intros H. rewrite (make_entry_shape tweet xs H). f_equal.
  apply map_eq. intros k. rewrite toCandidate_lookup.
  destruct (decide (k = "bad")) as [->|Hbad].
  { rewrite lookup_insert_eq. reflexivity. }
  rewrite lookup_insert_ne by congruence.
  destruct (decide (k = "urls")) as [->|Hurls].
  { rewrite lookup_insert_eq. reflexivity. }
  rewrite lookup_insert_ne by congruence.
  rewrite lookup_kept. now destruct (decide (k ∈ kept_keys)).
Qed.

(** C4: on posts of the feed's shape, [filter_tweets_with_urls] returns the
    candidates of the posts whose [entities.urls] is not empty, in the order
    of the posts, and nothing for the other posts; the candidate of a post
    holds the post's [id], [created_at] and [text], under [urls] the
    [expanded_url] of every entry of [entities.urls] in their order, and
    [bad] set to [False]. *)
Theorem filter_tweets_with_urls_candidates
    (tweets : list (gmap string json)) :
  Forall (fun tweet => is_Some (expanded_urls tweet)) tweets ->
  filter_tweets_with_urls tweets = Ok (omap candidate_of tweets) /\
  forall tweet,
    In tweet tweets ->
    (is_Some (candidate_of tweet) <->
       exists x xs, expanded_urls tweet = Some (x :: xs)) /\
    forall candidate,
      candidate_of tweet = Some candidate ->
      candidate !! "id" = tweet !! "id" /\
      candidate !! "created_at" = tweet !! "created_at" /\
      candidate !! "text" = tweet !! "text" /\
      candidate !! "urls" = JArr <$> expanded_urls tweet /\
      candidate !! "bad" = Some (JBool false).
Proof.
  intros Hshape. split.
  - induction Hshape as [|tweet tweets [xs Hxs] _ IH]; [reflexivity |].
    cbn [filter_tweets_with_urls omap list_omap].
    rewrite (contains_url_shape tweet xs Hxs). cbn [bind].
    unfold has_urls, candidate_of. rewrite Hxs.
    destruct xs as [|x xs].
    + exact IH.
    + rewrite (make_entry_candidate tweet (x :: xs) Hxs). cbn [bind].
      rewrite IH. reflexivity.
  - intros tweet _. unfold candidate_of. split.
    + destruct (expanded_urls tweet) as [[|x xs]|]; split.
      * intros [c Hc]. discriminate.
      * intros (x & xs & Hx). discriminate.
      * intros _. now exists x, xs.
      * intros _. now eexists.
      * intros [c Hc]. discriminate.
      * intros (x & xs & Hx). discriminate.
    + intros candidate Hc.
      destruct (expanded_urls tweet) as [[|x xs]|]; try discriminate.
      injection Hc as <-. rewrite !toCandidate_lookup.
      repeat split.
Qed.

Lemma filter_tweets_with_urls_candidates_witness :
  filter_tweets_with_urls
    [sample_post 1 "no link" false [];
     sample_post 2 "two links" false ["http://a.example"; "http://b.example"];
     sample_post 3 "one link" true ["http://c.example"]]
  = Ok (omap candidate_of
          [sample_post 1 "no link" false [];
           sample_post 2 "two links" false
             ["http://a.example"; "http://b.example"];
           sample_post 3 "one link" true ["http://c.example"]]).
Proof.
  apply (filter_tweets_with_urls_candidates
           [sample_post 1 "no link" false [];
            sample_post 2 "two links" false
              ["http://a.example"; "http://b.example"];
            sample_post 3 "one link" true ["http://c.example"]]).
  repeat (apply List.Forall_cons; [eexists; reflexivity |]).
  apply List.Forall_nil.
Defined.

(** A tweet without [entities] is outside the feed's shape: the filter
    raises [KeyError]. *)
Example filter_tweets_with_urls_no_entities :
  filter_tweets_with_urls [<["id" := JNum 1]> ∅] = Raise (KeyError "entities").
Proof. reflexivity. Qed.

(** ** The size of the pool *)

(** C5: a number of workers given with [--processes] reaches [mp.Pool] as a
    string, whatever it is, and [mp.Pool] raises [TypeError]; without the
    option the pool has four workers. *)
Theorem processes_given_raises (s : string) :
  mp_Pool (args_processes (Some s)) = Raise TypeError /\
  mp_Pool (args_processes (Some "1")) = Raise TypeError /\
  mp_Pool (args_processes (Some "8")) = Raise TypeError /\
  mp_Pool (args_processes None) = Ok 4%nat.
Proof. repeat split. Qed.

(** ** Candidates keep their urls *)

(** C8: every entry that [filter_tweets_with_urls] returns has at least one
    url; so has every entry that comes back from the scan, whatever the
    number of workers and the order of the results, and so has every entry
    the selection returns. *)
Theorem candidates_have_urls (requests_head : string -> outcome)
    (tweets entries : list (gmap string json)) :
  filter_tweets_with_urls tweets = Ok entries ->
  Forall nonempty_urls entries /\
  forall workers out,
    imap_unordered (check_urls_in_tweet requests_head) workers entries out ->
    (forall entry', In (Ok entry') out -> nonempty_urls entry') /\
    (forall selected,
       bad_tweets out = Ok selected -> Forall nonempty_urls selected).
Proof.
  intros H. pose proof (filter_tweets_with_urls_nonempty tweets entries H) as Hne.
  split; [exact Hne |]. intros workers out Hrun.
  apply imap_unordered_permutation in Hrun.
  assert (Hout : forall entry', In (Ok entry') out -> nonempty_urls entry').
  { intros entry' Hin. apply (Permutation_in _ Hrun) in Hin.
    apply in_map_iff in Hin as (entry & Hc & Hin).
    apply (nonempty_urls_checked requests_head entry entry'); [| exact Hc].
    rewrite Forall_forall in Hne. apply Hne. now apply list_elem_of_In. }
  split; [exact Hout |]. intros selected Hsel.
  apply Forall_forall. intros t Ht. apply list_elem_of_In in Ht.
  apply Hout. exact (bad_tweets_inv out selected Hsel t Ht).
Qed.

Lemma candidates_have_urls_witness :
  Forall nonempty_urls
    [sample_entry 2 ["http://a.example"; "http://b.example"] false;
     sample_entry 3 ["http://dead.example"] false].
Proof.
  apply (candidates_have_urls sample_net
           [sample_post 1 "check this http://x" false [];
            sample_post 2 "check this http://x" false
              ["http://a.example"; "http://b.example"];
            sample_post 3 "check this http://x" false ["http://dead.example"]]).
  reflexivity.
Defined.

(** ** The loader and a line that is not JSON *)

Lemma load_lines_until (loads : string -> option json)
    (good : list string) (parsed : list json) (bad : string)
    (rest : list string) :
  Forall2 (fun line tweet => loads line = Some tweet) good parsed ->
  loads bad = None ->
  forall tweets,
    load_lines loads (good ++ bad :: rest) tweets
    = ((tweets ++ parsed)%list, [CannotParseJSONFile]).
Proof.
  intros Hgood Hbad.
  induction Hgood as [|line tweet good parsed Hline _ IH]; intros tweets.
  - cbn [app load_lines]. rewrite Hbad. now rewrite app_nil_r.
  - cbn [app load_lines]. rewrite Hline, IH. now rewrite <- app_assoc.
Qed.

(** C6: when a line of the dump file is not JSON and the lines before it
    are, [load_tweets_from_file] returns the tweets of the lines before it
    and prints its message once; no line after it is read, be it JSON or
    not. *)
Theorem load_until_malformed (loads : string -> option json)
    (files : string -> option (list string)) (filename : string)
    (good : list string) (parsed : list json) (bad : string)
    (rest : list string) :
  files filename = Some (good ++ bad :: rest)%list ->
  Forall2 (fun line tweet => loads line = Some tweet) good parsed ->
  loads bad = None ->
  load_tweets_from_file loads files filename
  = (parsed, [CannotParseJSONFile]).
Proof.
  intros Hfile Hgood Hbad. unfold load_tweets_from_file. rewrite Hfile.
  exact (load_lines_until loads good parsed bad rest Hgood Hbad []).
Qed.

Lemma load_until_malformed_witness :
  load_tweets_from_file json_loads sample_files "tweet_dump.json"
  = ([JObj (<["id" := JNum 1]> (<["text" := JStr "one"]> ∅))],
     [CannotParseJSONFile]).
Proof.
  apply (load_until_malformed json_loads sample_files "tweet_dump.json"
           [dq "{'id':1,'text':'one'}"]
           [JObj (<["id" := JNum 1]> (<["text" := JStr "one"]> ∅))]
           "oops" [dq "{'id':3,'text':'three'}"]).
  - reflexivity.
  - repeat constructor.
  - reflexivity.
Defined.

(** The third line of the sample dump is JSON, yet only the first tweet is
    returned: the second line ends the loading. *)
Lemma load_drops_later_lines :
  sample_files "tweet_dump.json"
  = Some [dq "{'id':1,'text':'one'}"; "oops"; dq "{'id':3,'text':'three'}"] /\
  json_loads (dq "{'id':3,'text':'three'}")
  = Some (JObj (<["id" := JNum 3]> (<["text" := JStr "three"]> ∅))) /\
  load_tweets_from_file json_loads sample_files "tweet_dump.json"
  = ([JObj (<["id" := JNum 1]> (<["text" := JStr "one"]> ∅))],
     [CannotParseJSONFile]).
Proof. repeat split; reflexivity. Qed.

(** ** The pipeline on its own result *)

Lemma survivors_fixed (tweets : list (gmap string json)) :
  filter_retweets (List.filter with_url (List.filter not_retweet tweets))
  = Ok (List.filter with_url (List.filter not_retweet tweets)).
Proof.
  apply filter_retweets_fixed. apply Forall_forall. intros t Ht.
  apply list_elem_of_In in Ht. apply filter_In in Ht as [Ht _].
  now apply filter_In in Ht as [_ Ht].
Qed.

(** C7: the pipeline cannot be applied to its own result, unless that is
    empty: the entries have no [retweeted] key and [is_retweet] raises
    [KeyError] on the first of them.  What holds is that the tweets which
    pass both filters give, passed through the pipeline again, the entries
    that all the tweets gave. *)
Theorem pipeline_twice (tweets entries : list (gmap string json)) :
  pipeline tweets = Ok entries ->
  pipeline (List.filter passes tweets) = Ok entries /\
  pipeline entries
  = match entries with
    | [] => Ok []
    | _ :: _ => Raise (KeyError "retweeted")
    end.
Proof.
  unfold pipeline at 1. intros H.
  destruct (filter_retweets tweets) as [kept|] eqn:Hk; [|discriminate].
  cbn [bind] in H. apply filter_retweets_inv in Hk as [_ ->]. split.
  - destruct (filter_tweets_with_urls_survivors _ entries H) as [Heq _].
    rewrite filter_passes. unfold pipeline. rewrite survivors_fixed. exact Heq.
  - apply filter_tweets_with_urls_keys in H.
    destruct H as [|entry entries Hkeys _]; [reflexivity |].
    assert (Hnone : entry !! "retweeted" = None).
    { apply Hkeys. intros Hin.
      repeat (apply elem_of_cons in Hin as [Hin|Hin]; [discriminate |]).
      inversion Hin. }
    unfold pipeline. cbn [filter_retweets]. unfold is_retweet, getitem.
    rewrite Hnone. reflexivity.
Qed.

Lemma pipeline_twice_witness :
  let tweets :=
    [sample_post 1 "RT @a hi" false ["http://ok.example"];
     sample_post 2 "check this http://x" false ["http://ok.example"];
     sample_post 3 "no link" false []] in
  pipeline (List.filter passes tweets)
  = Ok [sample_entry 2 ["http://ok.example"] false] /\
  pipeline [sample_entry 2 ["http://ok.example"] false]
  = Raise (KeyError "retweeted").
Proof.
  cbv zeta.
  apply (pipeline_twice
           [sample_post 1 "RT @a hi" false ["http://ok.example"];
            sample_post 2 "check this http://x" false ["http://ok.example"];
            sample_post 3 "no link" false []]
           [sample_entry 2 ["http://ok.example"] false]).
  reflexivity.
Defined.

(** Applied once the pipeline returns one entry; applied to that result it
    raises. *)
Lemma pipeline_not_idempotent :
  pipeline [sample_post 2 "check this http://x" false ["http://ok.example"]]
  = Ok [sample_entry 2 ["http://ok.example"] false] /\
  pipeline [sample_entry 2 ["http://ok.example"] false]
  = Raise (KeyError "retweeted").
Proof. split; reflexivity. Qed.
